(** * The optimistic task-list controller of the task exercise

    A shallow embedding of
    [frontend/src/pages/exercises/tasks/ExerciseTaskList.tsx]: the React
    component's hooks become one [State] record, every [setX] call becomes a
    setter applied in program order, and each [async] handler is split at its
    single [await] into the part that runs before the request is issued and
    the continuation that runs once the request has settled.

    The backend service and an update handler are not part of that file;
    [CrudService] and [OptimisticUpdate] model them from the specification. *)

From Stdlib Require Import ZArith Ascii String.
From stdpp Require Import base decidable option list sorting sets gmap.

Local Open Scope Z_scope.
Local Open Scope list_scope.

(** ** JavaScript strings

    A JavaScript string is a sequence of UTF-16 code units; [lit] embeds the
    (ASCII) string literals of the source. *)

Abbreviation jsstring := (list N).

Definition lit (s : string) : jsstring :=
  (λ a, N_of_ascii a) <$> list_ascii_of_string s.

(** Boolean coercion of a string ([!s], [s && ...]): only the empty string is
    falsy. *)
Definition truthy (s : jsstring) : bool :=
  match s with [] => false | _ :: _ => true end.

(** Boolean coercion of a [string | null] or [string | undefined] value. *)
Definition truthy_opt (o : option jsstring) : bool :=
  match o with None => false | Some s => truthy s end.

(** The code units [String.prototype.trim] strips: ECMAScript's WhiteSpace
    (TAB, VT, FF, ZWNBSP and the space separators) and LineTerminator
    (LF, CR, LS, PS).  All of them are single code units. *)
Definition isWhiteSpace (c : N) : bool :=
  (bool_decide (c ∈ [9; 10; 11; 12; 13; 32; 160; 5760; 8232; 8233;
                      8239; 8287; 12288; 65279])
   || ((8192 <=? c) && (c <=? 8202)))%N.

Fixpoint trimStart (s : jsstring) : jsstring :=
  match s with
  | [] => []
  | c :: s' => if isWhiteSpace c then trimStart s' else s
  end.

Definition trimEnd (s : jsstring) : jsstring :=
  reverse (trimStart (reverse s)).

(** [String.prototype.trim]. *)
Definition trim (s : jsstring) : jsstring := trimEnd (trimStart s).

Fixpoint startsWith (s needle : jsstring) : bool :=
  match needle, s with
  | [], _ => true
  | _ :: _, [] => false
  | n :: needle', c :: s' => bool_decide (n = c) && startsWith s' needle'
  end.

(** [String.prototype.includes]: [needle] occurs at some position of [s]. *)
Fixpoint includes (s needle : jsstring) : bool :=
  startsWith s needle ||
  match s with
  | [] => false
  | _ :: s' => includes s' needle
  end.

(** A string starts clean when its first code unit, if any, is not white
    space, and ends clean when its last one is not. *)
Definition startsClean (s : jsstring) : Prop :=
  match s with
  | [] => True
  | c :: _ => isWhiteSpace c = false
  end.

Definition endsClean (s : jsstring) : Prop := startsClean (reverse s).

(** ** The data model *)

(** The string enums [TaskStatus] and [TaskPriority]: at run time their
    members are the strings below, and a task decoded from JSON carries
    whatever string the server sent. *)
Module TaskStatus.
Definition UPCOMING : jsstring := lit "UPCOMING".
Definition IN_PROGRESS : jsstring := lit "IN_PROGRESS".
Definition COMPLETED : jsstring := lit "COMPLETED".
Definition values : list jsstring := [UPCOMING; IN_PROGRESS; COMPLETED].
End TaskStatus.

Module TaskPriority.
Definition LOW : jsstring := lit "LOW".
Definition MEDIUM : jsstring := lit "MEDIUM".
Definition HIGH : jsstring := lit "HIGH".
Definition values : list jsstring := [LOW; MEDIUM; HIGH].
End TaskPriority.

(** [interface ExampleTask]. *)
Module ExampleTask.
Record t : Type := mk {
    id : jsstring;
    name : jsstring;
    assignedToName : option jsstring;
    assignedToAvatar : option jsstring;
    dueDate : option jsstring;
    status : jsstring;
    priority : jsstring;
    createdAt : jsstring;
    updatedAt : jsstring
  }.

#[global] Instance eq_dec : EqDecision t.
  Proof. solve_decision. Defined.
End ExampleTask.

(** The [formData] object of the create form. *)
Module FormData.
Record t : Type := mk { name : jsstring; priority : jsstring }.

#[global] Instance eq_dec : EqDecision t.
  Proof. solve_decision. Defined.

(** [keyof typeof formData]. *)
Inductive key : Type := Name | Priority.

Definition key_string (k : key) : jsstring :=
    match k with Name => lit "name" | Priority => lit "priority" end.

(** [{ ...prev, [field]: value }]. *)
Definition set (k : key) (v : jsstring) (prev : t) : t :=
    match k with
    | Name => mk v (priority prev)
    | Priority => mk (name prev) v
    end.

(** [prev[field]]. *)
Definition get (k : key) (fd : t) : jsstring :=
  match k with Name => name fd | Priority => priority fd end.

(** The object [useState] and [resetForm] install. *)
Definition initial : t := mk [] TaskPriority.MEDIUM.
End FormData.

(** The body of the POST request [createTask] sends. *)
Module CreatePayload.
Record t : Type := mk { name : jsstring; priority : jsstring }.
End CreatePayload.

(** ** Requests

    [fetchApi] lives in [utils/apiClient], outside the component: a request
    either resolves with a value or rejects with whatever was thrown.  The
    handlers only ask of a thrown value whether it is an [Error] and, if so,
    what its [message] is. *)
Inductive Thrown : Type :=
| ErrorObject (message : jsstring)
| NonError.

Inductive Settled (T : Type) : Type :=
| Resolved (value : T)
| Rejected (error : Thrown).
Arguments Resolved {T} value.
Arguments Rejected {T} error.

(** ** Control flow of [try]/[catch]/[finally]

    A block either runs to its end or leaves the function through [return];
    the [finally] clause runs in both cases. *)
Inductive Completion (S : Type) : Type :=
| Normal (st : S)
| Return (st : S).
Arguments Normal {S} st.
Arguments Return {S} st.

Definition finally {S : Type} (release : S → S) (c : Completion S) : S :=
  match c with
  | Normal st => release st
  | Return st => release st
  end.

(** ** Component state: one field per [useState] hook of [ExerciseTaskList] *)
Record State : Type := mkState {
  tasks : list ExampleTask.t;
  isLoading : bool;
  error : option jsstring;
  showIntroAlert : bool;
  showCreateModal : bool;
  isCreating : bool;
  createError : option jsstring;
  formData : FormData.t;
  validationErrors : gmap jsstring jsstring;
  deletingTasks : gset jsstring;
  showDeleteModal : bool;
  taskToDelete : option ExampleTask.t;
  deleteError : option jsstring
}.

(** The state of the first render. *)
Definition initialState : State :=
  {| tasks := []; isLoading := true; error := None; showIntroAlert := true;
     showCreateModal := false; isCreating := false; createError := None;
     formData := FormData.initial; validationErrors := ∅;
     deletingTasks := ∅; showDeleteModal := false; taskToDelete := None;
     deleteError := None |}.

(** The state setters.  Those the source calls in updater form
    ([setX(prev => ...)]) take the updater; [const v] gives their plain form
    [setX(v)]. *)
Section Setters.
Definition setTasks (f : list ExampleTask.t → list ExampleTask.t) (st : State) : State :=
    mkState (f (tasks st)) (isLoading st) (error st) (showIntroAlert st)
      (showCreateModal st) (isCreating st) (createError st) (formData st)
      (validationErrors st) (deletingTasks st) (showDeleteModal st)
      (taskToDelete st) (deleteError st).
Definition setIsLoading (v : bool) (st : State) : State :=
    mkState (tasks st) v (error st) (showIntroAlert st)
      (showCreateModal st) (isCreating st) (createError st) (formData st)
      (validationErrors st) (deletingTasks st) (showDeleteModal st)
      (taskToDelete st) (deleteError st).
Definition setError (v : option jsstring) (st : State) : State :=
    mkState (tasks st) (isLoading st) v (showIntroAlert st)
      (showCreateModal st) (isCreating st) (createError st) (formData st)
      (validationErrors st) (deletingTasks st) (showDeleteModal st)
      (taskToDelete st) (deleteError st).
Definition setShowIntroAlert (v : bool) (st : State) : State :=
    mkState (tasks st) (isLoading st) (error st) v
      (showCreateModal st) (isCreating st) (createError st) (formData st)
      (validationErrors st) (deletingTasks st) (showDeleteModal st)
      (taskToDelete st) (deleteError st).
Definition setShowCreateModal (v : bool) (st : State) : State :=
    mkState (tasks st) (isLoading st) (error st) (showIntroAlert st)
      v (isCreating st) (createError st) (formData st)
      (validationErrors st) (deletingTasks st) (showDeleteModal st)
      (taskToDelete st) (deleteError st).
Definition setIsCreating (v : bool) (st : State) : State :=
    mkState (tasks st) (isLoading st) (error st) (showIntroAlert st)
      (showCreateModal st) v (createError st) (formData st)
      (validationErrors st) (deletingTasks st) (showDeleteModal st)
      (taskToDelete st) (deleteError st).
Definition setCreateError (v : option jsstring) (st : State) : State :=
    mkState (tasks st) (isLoading st) (error st) (showIntroAlert st)
      (showCreateModal st) (isCreating st) v (formData st)
      (validationErrors st) (deletingTasks st) (showDeleteModal st)
      (taskToDelete st) (deleteError st).
Definition setFormData (f : FormData.t → FormData.t) (st : State) : State :=
    mkState (tasks st) (isLoading st) (error st) (showIntroAlert st)
      (showCreateModal st) (isCreating st) (createError st) (f (formData st))
      (validationErrors st) (deletingTasks st) (showDeleteModal st)
      (taskToDelete st) (deleteError st).
Definition setValidationErrors
      (f : gmap jsstring jsstring → gmap jsstring jsstring) (st : State) : State :=
    mkState (tasks st) (isLoading st) (error st) (showIntroAlert st)
      (showCreateModal st) (isCreating st) (createError st) (formData st)
      (f (validationErrors st)) (deletingTasks st) (showDeleteModal st)
      (taskToDelete st) (deleteError st).
Definition setDeletingTasks (f : gset jsstring → gset jsstring) (st : State) : State :=
    mkState (tasks st) (isLoading st) (error st) (showIntroAlert st)
      (showCreateModal st) (isCreating st) (createError st) (formData st)
      (validationErrors st) (f (deletingTasks st)) (showDeleteModal st)
      (taskToDelete st) (deleteError st).
Definition setShowDeleteModal (v : bool) (st : State) : State :=
    mkState (tasks st) (isLoading st) (error st) (showIntroAlert st)
      (showCreateModal st) (isCreating st) (createError st) (formData st)
      (validationErrors st) (deletingTasks st) v
      (taskToDelete st) (deleteError st).
Definition setTaskToDelete (v : option ExampleTask.t) (st : State) : State :=
    mkState (tasks st) (isLoading st) (error st) (showIntroAlert st)
      (showCreateModal st) (isCreating st) (createError st) (formData st)
      (validationErrors st) (deletingTasks st) (showDeleteModal st)
      v (deleteError st).
Definition setDeleteError (v : option jsstring) (st : State) : State :=
    mkState (tasks st) (isLoading st) (error st) (showIntroAlert st)
      (showCreateModal st) (isCreating st) (createError st) (formData st)
      (validationErrors st) (deletingTasks st) (showDeleteModal st)
      (taskToDelete st) v.
End Setters.

(** Statement sequencing: [st ▷ f ▷ g] runs [f], then [g]. *)
Notation "st ▷ f" := (f st) (at level 45, left associativity, only parsing).

(** ** [Array.prototype.sort]

    The sort is stable, and [a] comes before [b] when the comparison of [a]
    with [b] is negative.  For a consistent comparator the stably sorted list
    is unique, so the model is the stable insertion sort.  [sort_insert x l]
    places [x], which preceded every element of [l] in the input, before the
    first element it does not sort after.

    A comparator of the source returns a number or NaN ([None]); the sort
    reads NaN as [+0] ([sortCompare]).  A comparator that is NaN on some
    pairs need not be consistent, and the order is then left to the engine:
    what is proved about the order of a sorted array is proved for arrays on
    which the comparator returns numbers. *)
Definition sortCompare {A : Type} (compareFn : A → A → option Z) (x y : A) : Z :=
  default 0 (compareFn x y).

Section Sort.
Context {A : Type} (compareFn : A → A → Z).

Fixpoint sort_insert (x : A) (l : list A) : list A :=
  match l with
  | [] => [x]
  | y :: l' => if 0 <? compareFn x y then y :: sort_insert x l' else x :: l
  end.

Definition sort (l : list A) : list A := foldr sort_insert [] l.
End Sort.

(** ** The handlers of [ExerciseTaskList] *)
Section Controller.

(** [new Date(s).getTime()]: the milliseconds since the epoch, or NaN
    ([None]) when [s] is not a date. *)
Variable getTime : jsstring → option Z.

(** The effect run on mount, up to its [await] and after it. *)
Definition loadTasks_begin (st : State) : State :=
  st ▷ setIsLoading true ▷ setError None.

Definition loadTasks_resume
    (r : Settled (option (list ExampleTask.t))) (st : State) : State :=
  finally (setIsLoading false)
    match r with
    | Resolved fetchedTasks =>
        Normal (st ▷ setTasks (const (default [] fetchedTasks)))
    | Rejected err =>
        let message :=
          match err with
          | ErrorObject message => message
          | NonError => lit "Failed to fetch tasks"
          end in
        Normal (st ▷ setError (Some message) ▷ setTasks (const []))
    end.

(** The three boards. *)
Definition tasksWithStatus (s : jsstring) (l : list ExampleTask.t) : list ExampleTask.t :=
  filter (λ task, ExampleTask.status task = s) l.

Definition upcomingTasks (st : State) : list ExampleTask.t :=
  tasksWithStatus TaskStatus.UPCOMING (tasks st).
Definition inProgressTasks (st : State) : list ExampleTask.t :=
  tasksWithStatus TaskStatus.IN_PROGRESS (tasks st).
Definition completedTasks (st : State) : list ExampleTask.t :=
  tasksWithStatus TaskStatus.COMPLETED (tasks st).

(** *** The create form *)
Definition resetForm (st : State) : State :=
  st ▷ setFormData (const FormData.initial)
     ▷ setValidationErrors (const ∅)
     ▷ setCreateError None.

Definition handleNewTask (st : State) : State :=
  st ▷ resetForm ▷ setShowCreateModal true.

Definition handleCloseModal (st : State) : State :=
  st ▷ setShowCreateModal false ▷ resetForm.

(** [validateForm] returns whether [errors] has no key. *)
Definition validateForm (st : State) : State * bool :=
  let errors : gmap jsstring jsstring :=
    if negb (truthy (trim (FormData.name (formData st))))
    then {[ lit "name" := lit "Task name is required" ]}
    else ∅ in
  (st ▷ setValidationErrors (const errors), bool_decide (size errors = 0%nat)).

(** [handleInputChange]: both fields hold strings at run time (a
    [TaskPriority] is a string), so [typeof value === 'string'] holds and the
    value is trimmed.  [createError] and [validationErrors] are read from the
    render the handler belongs to. *)
Definition handleInputChange (field : FormData.key) (value : jsstring) (st : State) : State :=
  let trimmedValue := trim value in
  let st1 := st ▷ setFormData (FormData.set field trimmedValue) in
  let st2 := if truthy_opt (createError st) then st1 ▷ setCreateError None else st1 in
  if truthy_opt (validationErrors st !! FormData.key_string field)
  then st2 ▷ setValidationErrors (<[FormData.key_string field := []]>)
  else st2.

(** [createTask] up to its [await]: the new state and the request issued,
    if any. *)
Definition createTask_begin (st : State) : State * option CreatePayload.t :=
  let '(st1, valid) := validateForm st in
  if negb valid then (st1, None)
  else
    let st2 := st1 ▷ setIsCreating true ▷ setCreateError None in
    let payload :=
      CreatePayload.mk (trim (FormData.name (formData st)))
                       (FormData.priority (formData st)) in
    (st2, Some payload).

(** [createTask] after its [await]; [response] may be a falsy value. *)
Definition createTask_resume (r : Settled (option ExampleTask.t)) (st : State) : State :=
  finally (setIsCreating false)
    match r with
    | Resolved (Some response) =>
        Normal (st ▷ setTasks (λ prev, prev ++ [response]) ▷ handleCloseModal)
    | Resolved None =>
        Normal (st ▷ setCreateError (Some (lit "Failed to create task")))
    | Rejected err =>
        let message :=
          match err with
          | ErrorObject message => message
          | NonError => lit "Failed to create task"
          end in
        Normal (st ▷ setCreateError (Some message))
    end.

(** A create request fails unless it resolves with a (truthy) task; the
    failure branches pass [createFailureMessage] to [setCreateError]. *)
Definition createFailed (r : Settled (option ExampleTask.t)) : bool :=
  match r with
  | Resolved (Some _) => false
  | _ => true
  end.


(** *** Deletion *)
Definition handleDeleteTask (task : ExampleTask.t) (st : State) : State :=
  st ▷ setTaskToDelete (Some task) ▷ setDeleteError None ▷ setShowDeleteModal true.

Definition handleCloseDeleteModal (st : State) : State :=
  st ▷ setShowDeleteModal false ▷ setTaskToDelete None ▷ setDeleteError None.

(** [deleteTask] up to its [await]: the new state and the task whose DELETE
    request was issued, if any.  The handler keeps that task (its
    [taskToDelete]) for the continuation. *)
Definition deleteTask_begin (st : State) : State * option ExampleTask.t :=
  match taskToDelete st with
  | None => (st, None)
  | Some task0 =>
      let taskId := ExampleTask.id task0 in
      (st ▷ setDeletingTasks (λ prev, prev ∪ {[taskId]})
          ▷ setDeleteError None
          ▷ setTasks (λ prev, filter (λ task, ExampleTask.id task ≠ taskId) prev),
       Some task0)
  end.

(** The comparator of the rollback: the difference of the two times, NaN as
    soon as one of them is. *)
Definition byCreatedAt (a b : ExampleTask.t) : option Z :=
  match getTime (ExampleTask.createdAt a), getTime (ExampleTask.createdAt b) with
  | Some x, Some y => Some (x - y)
  | _, _ => None
  end.

(** A task whose [createdAt] is a date. *)
Definition hasCreationTime (task : ExampleTask.t) : Prop :=
  is_Some (getTime (ExampleTask.createdAt task)).

(** The order the comparator stands for, between tasks whose [createdAt]
    are dates: [a] was created no later than [b], and strictly before it. *)
Definition createdAtLe (a b : ExampleTask.t) : Prop :=
  match getTime (ExampleTask.createdAt a), getTime (ExampleTask.createdAt b) with
  | Some x, Some y => x ≤ y
  | _, _ => False
  end.

Definition createdAtLt (a b : ExampleTask.t) : Prop :=
  match getTime (ExampleTask.createdAt a), getTime (ExampleTask.createdAt b) with
  | Some x, Some y => x < y
  | _, _ => False
  end.

#[global] Instance createdAtLe_dec a b : Decision (createdAtLe a b).
Proof. unfold createdAtLe. repeat case_match; apply _. Defined.

#[global] Instance createdAtLt_dec a b : Decision (createdAtLt a b).
Proof. unfold createdAtLt. repeat case_match; apply _. Defined.

(** The test of the first branch of the [catch] clause. *)
Definition isNotFound (err : Thrown) : bool :=
  match err with
  | ErrorObject message =>
      includes message (lit "404") || includes message (lit "not found")
  | NonError => false
  end.

(** The [errorMessage] the [catch] clause shows when it does not return
    early. *)
Definition deleteErrorMessage (err : Thrown) : jsstring :=
  match err with
  | ErrorObject message =>
      if includes message (lit "500") || includes message (lit "server")
      then lit "Server error occurred. Please try again later."
      else if includes message (lit "network") || includes message (lit "fetch")
      then lit "Network error. Please check your connection and try again."
      else message
  | NonError => lit "Failed to delete task. Please try again."
  end.

(** The [catch] clause of [deleteTask].  The not-found branch returns from
    inside the clause; every other branch falls through to the rollback with
    the [errorMessage] it chose. *)
Definition deleteTask_catch (task0 : ExampleTask.t) (err : Thrown) (st : State)
    : Completion State :=
  let rollback (errorMessage : jsstring) :=
    Normal (st ▷ setTasks (λ prev, sort (sortCompare byCreatedAt) (prev ++ [task0]))
               ▷ setDeleteError (Some errorMessage)) in
  match err with
  | ErrorObject message =>
      if includes message (lit "404") || includes message (lit "not found")
      then Return (st ▷ handleCloseDeleteModal)
      else if includes message (lit "500") || includes message (lit "server")
      then rollback (lit "Server error occurred. Please try again later.")
      else if includes message (lit "network") || includes message (lit "fetch")
      then rollback (lit "Network error. Please check your connection and try again.")
      else rollback message
  | NonError => rollback (lit "Failed to delete task. Please try again.")
  end.

(** [deleteTask] after its [await], for the task [task0] it was started
    with. *)
Definition deleteTask_resume (task0 : ExampleTask.t) (r : Settled unit) (st : State) : State :=
  let taskId := ExampleTask.id task0 in
  finally (setDeletingTasks (λ prev, prev ∖ {[taskId]}))
    match r with
    | Resolved _ => Normal (st ▷ handleCloseDeleteModal)
    | Rejected err => deleteTask_catch task0 err st
    end.

(** *** What the render disables and shows *)

(** The View and Delete buttons of a row of [TaskTable]. *)
Definition rowControlsDisabled (task : ExampleTask.t) (st : State) : bool :=
  bool_decide (ExampleTask.id task ∈ deletingTasks st).

(** The Cancel and Delete buttons of the confirmation dialog. *)
Definition cancelDeleteDisabled (st : State) : bool :=
  match taskToDelete st with
  | Some task => bool_decide (ExampleTask.id task ∈ deletingTasks st)
  | None => false
  end.

Definition confirmDeleteDisabled (st : State) : bool :=
  match taskToDelete st with
  | Some task => bool_decide (ExampleTask.id task ∈ deletingTasks st)
  | None => true
  end.

(** The Cancel and Create buttons of the create dialog. *)
Definition cancelCreateDisabled (st : State) : bool := isCreating st.

Definition createSubmitDisabled (st : State) : bool :=
  isCreating st || negb (truthy (trim (FormData.name (formData st)))).

(** The alerts inside the two dialogs, rendered under [createError && ...]
    and [deleteError && ...]. *)
Definition createErrorShown (st : State) : bool := truthy_opt (createError st).
Definition deleteErrorShown (st : State) : bool := truthy_opt (deleteError st).

End Controller.

(** The stored name is its own trim. *)
Definition nameTrimmed (st : State) : Prop :=
  trim (FormData.name (formData st)) = FormData.name (formData st).

(** ** The page as a transition system

    Between two events the component is re-rendered, so every handler sees
    the current state.  Besides the hooks, a [World] records the requests
    that have been issued and have not settled yet: each continuation of
    [deleteTask] waits with the task it was started for. *)
Record World : Type := mkWorld {
  ui : State;
  loadInFlight : bool;
  createsInFlight : list CreatePayload.t;
  deletesInFlight : list ExampleTask.t
}.

(** After mount: the first render, with the effect's request under way. *)
Definition initialWorld : World :=
  mkWorld (loadTasks_begin initialState) true [] [].

(** What can happen to the page: a click, an input, a dialog being dismissed
    ([onHide]), or a request settling; [k] is the position of the settling
    request among those in flight.  The View button leaves the page and is
    not an event of the system. *)
Inductive Event : Type :=
| LoadSettled (r : Settled (option (list ExampleTask.t)))
| DismissIntro
| ClickNewTask
| HideCreateModal
| ClickCancelCreate
| ChangeInput (field : FormData.key) (value : jsstring)
| ClickCreate
| CreateSettled (k : nat) (r : Settled (option ExampleTask.t))
| ClickRowDelete (task : ExampleTask.t)
| HideDeleteModal
| ClickCancelDelete
| ClickConfirmDelete
| DeleteSettled (k : nat) (r : Settled unit).

Definition withUi (f : State → State) (w : World) : World :=
  mkWorld (f (ui w)) (loadInFlight w) (createsInFlight w) (deletesInFlight w).

Section Page.
Variable getTime : jsstring → option Z.

(** [step e w] is the world after event [e], or [None] when the page does not
    offer [e] in [w].  A button offers its click unless its [disabled]
    attribute holds, a row exists for each element of [tasks], and a request
    can only settle while it is in flight.  Whether a dialog or a board is
    currently shown is not used as a guard, so the system allows at least
    every event the rendered page allows. *)
Definition step (e : Event) (w : World) : option World :=
  match e with
  | LoadSettled r =>
      if loadInFlight w
      then Some (mkWorld (loadTasks_resume r (ui w)) false
                         (createsInFlight w) (deletesInFlight w))
      else None
  | DismissIntro => Some (withUi (setShowIntroAlert false) w)
  | ClickNewTask => Some (withUi handleNewTask w)
  | HideCreateModal => Some (withUi handleCloseModal w)
  | ClickCancelCreate =>
      if cancelCreateDisabled (ui w) then None
      else Some (withUi handleCloseModal w)
  | ChangeInput field value => Some (withUi (handleInputChange field value) w)
  | ClickCreate =>
      if createSubmitDisabled (ui w) then None
      else
        let '(st, request) := createTask_begin (ui w) in
        Some (mkWorld st (loadInFlight w)
                      (createsInFlight w ++ option_list request)
                      (deletesInFlight w))
  | CreateSettled k r =>
      match createsInFlight w !! k with
      | Some _ =>
          Some (mkWorld (createTask_resume r (ui w)) (loadInFlight w)
                        (delete k (createsInFlight w)) (deletesInFlight w))
      | None => None
      end
  | ClickRowDelete task =>
      if bool_decide (task ∈ tasks (ui w)) && negb (rowControlsDisabled task (ui w))
      then Some (withUi (handleDeleteTask task) w)
      else None
  | HideDeleteModal => Some (withUi handleCloseDeleteModal w)
  | ClickCancelDelete =>
      if cancelDeleteDisabled (ui w) then None
      else Some (withUi handleCloseDeleteModal w)
  | ClickConfirmDelete =>
      if confirmDeleteDisabled (ui w) then None
      else
        let '(st, request) := deleteTask_begin (ui w) in
        Some (mkWorld st (loadInFlight w) (createsInFlight w)
                      (deletesInFlight w ++ option_list request))
  | DeleteSettled k r =>
      match deletesInFlight w !! k with
      | Some task0 =>
          Some (mkWorld (deleteTask_resume getTime task0 r (ui w)) (loadInFlight w)
                        (createsInFlight w) (delete k (deletesInFlight w)))
      | None => None
      end
  end.

(** Running a sequence of events, oldest first. *)
Fixpoint run (es : list Event) (w : World) : option World :=
  match es with
  | [] => Some w
  | e :: es' =>
      match step e w with
      | Some w' => run es' w'
      | None => None
      end
  end.

Definition reachable (w : World) : Prop :=
  ∃ es, run es initialWorld = Some w.

(** The DELETE requests in flight for the record [taskId]. *)
Definition deletesInFlightFor (taskId : jsstring) (w : World) : list ExampleTask.t :=
  filter (λ task, ExampleTask.id task = taskId) (deletesInFlight w).

End Page.

(** The "deleting" set is exactly the set of ids with a DELETE request in
    flight, and no id has two. *)
Definition inFlightInv (w : World) : Prop :=
  NoDup (ExampleTask.id <$> deletesInFlight w)
  ∧ ∀ taskId, taskId ∈ deletingTasks (ui w)
              ↔ taskId ∈ ExampleTask.id <$> deletesInFlight w.

(** ** The resource store's side of the create operation *)

(** Modelled from the spec: the Task entity of the resource store (section 3
    of the specification).  The backend's model and service files are not
    among the sources. *)
Module Task.
Record t : Type := mk {
  id : jsstring;
  name : jsstring;
  description : option jsstring;
  status : jsstring;
  priority : jsstring;
  createdAt : jsstring;
  updatedAt : jsstring
}.

#[global] Instance eq_dec : EqDecision t.
Proof. solve_decision. Defined.
End Task.

Module CrudService.
(** Modelled from the spec: the failure kinds of the CRUD service
    (section 7). *)
Inductive Failure : Type := ValidationError | NotFound | StorageFailure.

(** Modelled from the spec: the input of [create],
    [{name, description?, priority?}]; a missing field is [None]. *)
Record CreateInput : Type := mkInput {
  name : option jsstring;
  description : option jsstring;
  priority : option jsstring
}.

(** Modelled from the spec: identifier generation, of which the specification
    only says that the identifier is generated at creation and distinct from
    all existing ones.  The model picks an identifier outside the store. *)
Definition generateId (store : list Task.t) : jsstring :=
  fresh (list_to_set (Task.id <$> store) : gset jsstring).

(** Modelled from the spec: [create] of the CRUD service (section 4.1).  It
    fails with [ValidationError] if the name is missing or empty, and
    otherwise produces a new task with a generated id, status UPCOMING and
    the provided or defaulted priority; [now] is the store's clock.  A name
    counts as empty when nothing is left of it after trimming, which is the
    invariant section 3 puts on stored names. *)
Definition create (now : jsstring) (input : CreateInput) (store : list Task.t)
    : Failure + Task.t * list Task.t :=
  match name input with
  | None => inl ValidationError
  | Some n =>
      if negb (truthy (trim n)) then inl ValidationError
      else
        let task :=
          Task.mk (generateId store) n (description input)
                  TaskStatus.UPCOMING
                  (default TaskPriority.MEDIUM (priority input))
                  now now in
        inr (task, store ++ [task])
  end.

(** The request body the client sends, read as an input of [create]. *)
Definition inputOfPayload (p : CreatePayload.t) : CreateInput :=
  mkInput (Some (CreatePayload.name p)) None (Some (CreatePayload.priority p)).
End CrudService.

(** ** The update protocol of the client controller *)
Module OptimisticUpdate.

(** Modelled from the spec: the client's state for updates (section 4.3): the
    local collection, the "updating" set and the surfaced error.  The
    component among the sources has no update handler. *)
Record State : Type := mkState {
  tasks : list Task.t;
  updatingTasks : gset jsstring;
  updateError : option jsstring
}.

(** Modelled from the spec: a partial update, any subset of
    name, description, status and priority. *)
Record Patch : Type := mkPatch {
  name : option jsstring;
  description : option (option jsstring);
  status : option jsstring;
  priority : option jsstring
}.

(** Modelled from the spec: merging the provided fields into a record. *)
Definition applyPatch (p : Patch) (t : Task.t) : Task.t :=
  Task.mk (Task.id t)
          (default (Task.name t) (name p))
          (default (Task.description t) (description p))
          (default (Task.status t) (status p))
          (default (Task.priority t) (priority p))
          (Task.createdAt t) (Task.updatedAt t).

(** Modelled from the spec: the client-visible record with a given id, the
    first one in the local collection. *)
Definition visible (taskId : jsstring) (l : list Task.t) : option Task.t :=
  head (filter (λ t, Task.id t = taskId) l).

(** Modelled from the spec: replacing the local copy of a record. *)
Definition replaceTask (taskId : jsstring) (new : Task.t) (l : list Task.t) : list Task.t :=
  (λ t, if decide (Task.id t = taskId) then new else t) <$> l.

(** Modelled from the spec: how an update request ends. *)
Inductive Outcome : Type :=
| Success (returned : Task.t)
| Failure (message : jsstring)
| Exception (message : jsstring).

(** Modelled from the spec: the first half of an update.  The in-flight set
    is consulted first; then the pre-mutation snapshot is taken, the local
    copy is mutated and the id joins the "updating" set.  The result carries
    the snapshot when a request was issued. *)
Definition update_begin (taskId : jsstring) (p : Patch) (st : State)
    : State * option Task.t :=
  if decide (taskId ∈ updatingTasks st) then (st, None)
  else
    match visible taskId (tasks st) with
    | None => (st, None)
    | Some snapshot =>
        (mkState (replaceTask taskId (applyPatch p snapshot) (tasks st))
                 (updatingTasks st ∪ {[taskId]})
                 (updateError st),
         Some snapshot)
    end.

(** Modelled from the spec: reconciliation.  On success the local copy is
    replaced by the returned task; on failure it is reverted to the snapshot
    and the error is surfaced; the id leaves the "updating" set in all
    cases. *)
Definition update_resume (taskId : jsstring) (snapshot : Task.t)
    (o : Outcome) (st : State) : State :=
  finally (λ st, mkState (tasks st) (updatingTasks st ∖ {[taskId]}) (updateError st))
    match o with
    | Success returned =>
        Normal (mkState (replaceTask taskId returned (tasks st))
                        (updatingTasks st) (updateError st))
    | Failure message | Exception message =>
        Normal (mkState (replaceTask taskId snapshot (tasks st))
                        (updatingTasks st) (Some message))
    end.
End OptimisticUpdate.

(** ** Sample data for the worked examples *)
Module Sample.
(** For the samples, a timestamp is written as its decimal count of
    milliseconds, and [getTime] reads it back; any other string is not a
    date. *)
Definition getTime (s : jsstring) : option Z :=
  if forallb (λ c, (48 <=? c) && (c <=? 57))%N s && truthy s
  then Some (Z.of_N (foldl (λ acc c, 10 * acc + (c - 48))%N 0%N s))
  else None.

Definition task (id name status priority createdAt : string) : ExampleTask.t :=
  ExampleTask.mk (lit id) (lit name) None None None (lit status) (lit priority)
                 (lit createdAt) (lit createdAt).

Definition specTask : ExampleTask.t := task "t1" "Write spec" "UPCOMING" "HIGH" "1000".
Definition reviewTask : ExampleTask.t := task "t2" "Review" "IN_PROGRESS" "LOW" "2000".
Definition shipTask : ExampleTask.t := task "t3" "Ship" "COMPLETED" "MEDIUM" "3000".

(** The page once the three tasks have been loaded. *)
Definition loaded : State :=
  loadTasks_resume (Resolved (Some [specTask; reviewTask; shipTask]))
                   (loadTasks_begin initialState).

(** The create dialog with a name typed in, and the request it sends. *)
Definition typed : State :=
  loaded ▷ handleNewTask ▷ handleInputChange FormData.Name (lit "  Write docs ").

Definition typedPayload : CreatePayload.t :=
  CreatePayload.mk (lit "Write docs") TaskPriority.MEDIUM.

(** The create dialog with only white space typed in. *)
Definition blank : State :=
  loaded ▷ handleNewTask ▷ handleInputChange FormData.Name (lit "   ").

(** The confirmation dialog open for the second task. *)
Definition selected : State := loaded ▷ handleDeleteTask reviewTask.

(** Failures of a request. *)
Definition serverError : Thrown := ErrorObject (lit "HTTP error! status: 500").
Definition notFoundError : Thrown := ErrorObject (lit "HTTP error! status: 404").

(** The tasks are loaded, the second one is selected for deletion and the
    deletion is confirmed: its request is in flight. *)
Definition deleting : list Event :=
  [LoadSettled (Resolved (Some [specTask; reviewTask; shipTask]));
   ClickRowDelete reviewTask;
   ClickConfirmDelete].

Definition deletingWorld : World :=
  default initialWorld (run getTime deleting initialWorld).

(** A stored task with low priority, and the update that raises it. *)
Definition lowTask : Task.t :=
  Task.mk (lit "t1") (lit "Write spec") None TaskStatus.UPCOMING
          TaskPriority.LOW (lit "1000") (lit "1000").

Definition raisePriority : OptimisticUpdate.Patch :=
  OptimisticUpdate.mkPatch None None None (Some TaskPriority.HIGH).

Definition idle : OptimisticUpdate.State :=
  OptimisticUpdate.mkState [lowTask] ∅ None.

(** An input of the service's [create]. *)
Definition writeSpec : CrudService.CreateInput :=
  CrudService.mkInput (Some (lit "Write spec")) None (Some TaskPriority.HIGH).
End Sample.

(** ** What the two dialogs show

    A dialog renders its alert only while it is shown ([show={...}]). *)
Definition createAlertVisible (st : State) : bool :=
  showCreateModal st && createErrorShown st.

Definition deleteAlertVisible (st : State) : bool :=
  showDeleteModal st && deleteErrorShown st.

(** ** The detail page: [ExerciseTaskDetail.tsx] *)
Module Detail.

(** [interface ExampleTask] of the detail page. *)
Record Task : Type := mkTask {
  id : jsstring;
  name : jsstring;
  description : option jsstring;
  status : jsstring;
  priority : jsstring;
  createdAt : jsstring;
  updatedAt : jsstring
}.

(** One field per [useState] hook of [ExerciseTaskDetail]. *)
Record State : Type := mkState {
  task : option Task;
  isLoading : bool;
  error : option jsstring
}.

Definition initialState : State := mkState None true None.

Definition setTask (v : option Task) (st : State) : State :=
  mkState v (isLoading st) (error st).
Definition setIsLoading (v : bool) (st : State) : State :=
  mkState (task st) v (error st).
Definition setError (v : option jsstring) (st : State) : State :=
  mkState (task st) (isLoading st) v.

(** [loadTask] up to its [await], for the route parameter [taskId]
    ([undefined] is [None]): the new state and the id whose request was
    issued, if any.  [!taskId] holds for [undefined] and for the empty
    string. *)
Definition loadTask_begin (taskId : option jsstring) (st : State)
    : State * option jsstring :=
  if negb (truthy_opt taskId)
  then (st ▷ setError (Some (lit "Task ID is required")) ▷ setIsLoading false,
        None)
  else (st ▷ setIsLoading true ▷ setError None, taskId).

(** [loadTask] after its [await]; the resolved value may be [null]. *)
Definition loadTask_resume (r : Settled (option Task)) (st : State) : State :=
  finally (setIsLoading false)
    match r with
    | Resolved fetchedTask => Normal (st ▷ setTask fetchedTask)
    | Rejected err =>
        let message :=
          match err with
          | ErrorObject message => message
          | NonError => lit "Failed to fetch task"
          end in
        Normal (st ▷ setError (Some message) ▷ setTask None)
    end.

(** What the render shows: the spinner under [isLoading], the alert under
    [error], the card under [!isLoading && !error && task]. *)
Definition spinnerShown (st : State) : bool := isLoading st.
Definition alertShown (st : State) : bool := truthy_opt (error st).
Definition cardShown (st : State) : bool :=
  negb (isLoading st) && negb (truthy_opt (error st))
  && match task st with Some _ => true | None => false end.

(** The page with its route parameter and the requests that have not
    settled yet, each with the id it was issued for. *)
Record World : Type := mkWorld {
  taskId : option jsstring;
  view : State;
  loadsInFlight : list jsstring
}.

(** After mount: the first render, then the effect. *)
Definition mount (taskId : option jsstring) : World :=
  let '(st, request) := loadTask_begin taskId initialState in
  mkWorld taskId st (option_list request).

(** The route parameter changes (the effect depends on [taskId] and runs
    again), or a request settles; [k] is its position among those in flight.
    The Back button leaves the page and is not an event of the system. *)
Inductive Event : Type :=
| ParamChanged (newTaskId : option jsstring)
| LoadSettled (k : nat) (r : Settled (option Task)).

Definition step (e : Event) (w : World) : option World :=
  match e with
  | ParamChanged newTaskId =>
      if decide (newTaskId = taskId w) then None
      else
        let '(st, request) := loadTask_begin newTaskId (view w) in
        Some (mkWorld newTaskId st (loadsInFlight w ++ option_list request))
  | LoadSettled k r =>
      match loadsInFlight w !! k with
      | Some _ =>
          Some (mkWorld (taskId w) (loadTask_resume r (view w))
                        (delete k (loadsInFlight w)))
      | None => None
      end
  end.

Fixpoint run (es : list Event) (w : World) : option World :=
  match es with
  | [] => Some w
  | e :: es' =>
      match step e w with
      | Some w' => run es' w'
      | None => None
      end
  end.

Definition reachable (w : World) : Prop :=
  ∃ taskId es, run es (mount taskId) = Some w.

End Detail.

(** ** More sample data *)
Module MoreSamples.
Import Sample.

(** The second task's deletion is confirmed and the dialog is dismissed
    while the request is in flight. *)
Definition dismissed : list Event :=
  deleting ++ [HideDeleteModal].

Definition dismissedWorld : World :=
  default initialWorld (run getTime dismissed initialWorld).

(** A create request for "Write docs" is in flight. *)
Definition creating : list Event :=
  [LoadSettled (Resolved (Some [specTask; reviewTask; shipTask]));
   ClickNewTask;
   ChangeInput FormData.Name (lit "  Write docs ");
   ClickCreate].

Definition creatingWorld : World :=
  default initialWorld (run getTime creating initialWorld).

(** A task whose status is none of the three. *)
Definition archivedTask : ExampleTask.t :=
  task "t4" "Old" "ARCHIVED" "LOW" "4000".

(** A task created at the same instant as the second one, listed after it. *)
Definition twinTask : ExampleTask.t :=
  task "t5" "Twin" "IN_PROGRESS" "LOW" "2000".

(** Two tasks as the detail page receives them. *)
Definition firstDetail : Detail.Task :=
  Detail.mkTask (lit "t1") (lit "Write spec") None TaskStatus.UPCOMING
                TaskPriority.HIGH (lit "1000") (lit "1000").
Definition secondDetail : Detail.Task :=
  Detail.mkTask (lit "t2") (lit "Review") None TaskStatus.IN_PROGRESS
                TaskPriority.LOW (lit "2000") (lit "2000").
End MoreSamples.

(** ** Sample data for the failure paths *)
Module FailureSamples.
Import Sample MoreSamples.





End FailureSamples.

(** * Properties of the controller *)

(** ** Trimming *)

Lemma trimStart_startsClean s : startsClean (trimStart s).
Proof.
  induction s as [|c s IH]; simpl; [done|].
  destruct (isWhiteSpace c) eqn:Hc; [exact IH | exact Hc].
Qed.

Lemma trimStart_fixed s : startsClean s → trimStart s = s.
Proof. destruct s as [|c s]; simpl; [done|]. by intros ->. Qed.

Lemma trimStart_snoc s c :
  isWhiteSpace c = false → trimStart (s ++ [c]) = trimStart s ++ [c].
Proof.
  intros Hc. induction s as [|d s IH]; simpl.
  - by rewrite Hc.
  - destruct (isWhiteSpace d); [exact IH | done].
Qed.

Lemma trimEnd_cons c s :
  isWhiteSpace c = false → trimEnd (c :: s) = c :: trimEnd s.
Proof.
  intros Hc. unfold trimEnd.
  by rewrite reverse_cons, trimStart_snoc, reverse_snoc.
Qed.

Lemma trimEnd_startsClean s : startsClean s → startsClean (trimEnd s).
Proof.
  destruct s as [|c s]; simpl; [done|].
  intros Hc. by rewrite trimEnd_cons.
Qed.

Lemma trimEnd_endsClean s : endsClean (trimEnd s).
Proof.
  unfold endsClean, trimEnd. rewrite reverse_involutive.
  apply trimStart_startsClean.
Qed.

Lemma trimEnd_fixed s : endsClean s → trimEnd s = s.
Proof.
  unfold endsClean, trimEnd. intros H.
  by rewrite (trimStart_fixed _ H), reverse_involutive.
Qed.

Lemma trim_startsClean s : startsClean (trim s).
Proof. apply trimEnd_startsClean, trimStart_startsClean. Qed.

Lemma trim_endsClean s : endsClean (trim s).
Proof. apply trimEnd_endsClean. Qed.

Lemma trim_fixed s : startsClean s → endsClean s → trim s = s.
Proof.
  intros Hs He. unfold trim. rewrite (trimStart_fixed _ Hs).
  by apply trimEnd_fixed.
Qed.

Lemma trim_idemp s : trim (trim s) = trim s.
Proof. apply trim_fixed; [apply trim_startsClean | apply trim_endsClean]. Qed.

Lemma trim_nil : trim [] = [].
Proof. reflexivity. Qed.

Lemma truthy_false s : truthy s = false ↔ s = [].
Proof. by destruct s. Qed.

(** ** The three boards *)

Lemma status_values_distinct :
  TaskStatus.UPCOMING ≠ TaskStatus.IN_PROGRESS
  ∧ TaskStatus.UPCOMING ≠ TaskStatus.COMPLETED
  ∧ TaskStatus.IN_PROGRESS ≠ TaskStatus.COMPLETED.
Proof. by vm_compute. Qed.

Lemma elem_of_tasksWithStatus s l task :
  task ∈ tasksWithStatus s l ↔ ExampleTask.status task = s ∧ task ∈ l.
Proof. unfold tasksWithStatus. by rewrite list_elem_of_filter. Qed.

Lemma tasksWithStatus_cons s task l :
  tasksWithStatus s (task :: l) =
  if decide (ExampleTask.status task = s)
  then task :: tasksWithStatus s l else tasksWithStatus s l.
Proof. unfold tasksWithStatus. by rewrite filter_cons. Qed.

Lemma boards_Permutation (l : list ExampleTask.t) :
  Forall (λ task, ExampleTask.status task ∈ TaskStatus.values) l →
  tasksWithStatus TaskStatus.UPCOMING l
    ++ tasksWithStatus TaskStatus.IN_PROGRESS l
    ++ tasksWithStatus TaskStatus.COMPLETED l ≡ₚ l.
Proof.
  destruct status_values_distinct as (Hui & Huc & Hic).
  induction 1 as [|task l Hs _ IH]; [done|].
  rewrite !tasksWithStatus_cons.
  unfold TaskStatus.values in Hs.
  rewrite !elem_of_cons, elem_of_nil in Hs.
  destruct Hs as [Hs|[Hs|[Hs|[]]]]; rewrite Hs;
    repeat case_decide; try congruence; simpl.
  - by rewrite IH.
  - rewrite <- Permutation_middle. by rewrite IH.
  - rewrite app_assoc, <- Permutation_middle, <- app_assoc. by rewrite IH.
Qed.

(** C8. The three status-filtered views partition the local collection: when
    every task carries one of the three enumerated statuses, the boards
    together hold exactly the tasks of the collection, each as often as the
    collection does, and a task of the collection is on the board of a status
    if and only if that status is its own. *)
Theorem boards_partition (st : State) :
  Forall (λ task, ExampleTask.status task ∈ TaskStatus.values) (tasks st) →
  upcomingTasks st ++ inProgressTasks st ++ completedTasks st ≡ₚ tasks st
  ∧ ∀ task, task ∈ tasks st →
      ∀ s, s ∈ TaskStatus.values →
        (task ∈ tasksWithStatus s (tasks st) ↔ s = ExampleTask.status task).
Proof.
  intros Hvalid. split.
  - by apply boards_Permutation.
  - intros task Hin s _. rewrite elem_of_tasksWithStatus.
    split; [by intros [-> _] | by intros ->].
Qed.

(** ** Creating a task *)

Lemma validateForm_spec st :
  validateForm st =
  if truthy (trim (FormData.name (formData st)))
  then (setValidationErrors (const ∅) st, true)
  else (setValidationErrors
          (const {[ lit "name" := lit "Task name is required" ]}) st, false).
Proof. unfold validateForm. by destruct (truthy _). Qed.

Lemma createTask_begin_invalid st :
  trim (FormData.name (formData st)) = [] →
  createTask_begin st =
  (setValidationErrors
     (const {[ lit "name" := lit "Task name is required" ]}) st, None).
Proof.
  intros Hempty. unfold createTask_begin.
  rewrite validateForm_spec, Hempty. reflexivity.
Qed.

Lemma createTask_begin_valid st :
  trim (FormData.name (formData st)) ≠ [] →
  createTask_begin st =
  (st ▷ setValidationErrors (const ∅) ▷ setIsCreating true ▷ setCreateError None,
   Some (CreatePayload.mk (trim (FormData.name (formData st)))
                          (FormData.priority (formData st)))).
Proof.
  intros Hne. unfold createTask_begin. rewrite validateForm_spec.
  destruct (trim _) eqn:E; [done|]. reflexivity.
Qed.

(** C5. When a create request succeeds, the task the server returned is
    appended at the end of the local collection, the tasks already there keep
    their positions, and the create dialog is closed with its form reset. *)
Theorem createTask_success (response : ExampleTask.t) (st : State) :
  let st' := createTask_resume (Resolved (Some response)) st in
  tasks st' = tasks st ++ [response]
  ∧ (∀ i task, tasks st !! i = Some task → tasks st' !! i = Some task)
  ∧ tasks st' !! length (tasks st) = Some response
  ∧ length (tasks st') = S (length (tasks st))
  ∧ showCreateModal st' = false
  ∧ formData st' = FormData.initial
  ∧ validationErrors st' = ∅
  ∧ createError st' = None
  ∧ isCreating st' = false.
Proof.
  simpl. split_and!; try reflexivity.
  - intros i task Hi. by apply lookup_app_l_Some.
  - by rewrite lookup_app_r, Nat.sub_diag.
  - rewrite length_app. simpl. lia.
Qed.


(** ** Invariants of the page *)

Section Invariants.
Variable getTime : jsstring → option Z.

(** A property that holds after mount and is kept by every event holds in
    every reachable world. *)
Lemma reachable_ind (P : World → Prop) :
  P initialWorld →
  (∀ e w w', P w → step getTime e w = Some w' → P w') →
  ∀ w, reachable getTime w → P w.
Proof.
  intros Hinit Hstep w [es Hrun].
  revert Hrun. generalize initialWorld Hinit. clear Hinit.
  induction es as [|e es IH]; intros w0 Hw0 Hrun; simpl in Hrun.
  - by injection Hrun as <-.
  - destruct (step getTime e w0) as [w1|] eqn:He; [|done].
    eapply IH; [|exact Hrun]. eauto.
Qed.

Lemma reachable_step e w w' :
  reachable getTime w → step getTime e w = Some w' → reachable getTime w'.
Proof.
  intros [es Hrun] Hstep. exists (es ++ [e]).
  revert Hrun. generalize initialWorld.
  induction es as [|e0 es IH]; intros w0 Hrun; simpl in *.
  - injection Hrun as ->. by rewrite Hstep.
  - destruct (step getTime e0 w0); [by apply IH | done].
Qed.

(** *** What each handler does to the form *)

Lemma formData_handleInputChange field value st :
  formData (handleInputChange field value st) =
  FormData.set field (trim value) (formData st).
Proof.
  unfold handleInputChange.
  by destruct (truthy_opt (createError st)), (truthy_opt (_ !! _)).
Qed.

Lemma formData_createTask_begin st :
  formData (createTask_begin st).1 = formData st.
Proof.
  unfold createTask_begin. rewrite validateForm_spec.
  by destruct (truthy _).
Qed.

Lemma formData_createTask_resume r st :
  formData (createTask_resume r st) =
  if createFailed r then formData st else FormData.initial.
Proof. by destruct r as [[response|]|[message|]]. Qed.

Lemma formData_loadTasks_resume r st :
  formData (loadTasks_resume r st) = formData st.
Proof. by destruct r. Qed.

Lemma formData_deleteTask_begin st :
  formData (deleteTask_begin st).1 = formData st.
Proof. unfold deleteTask_begin. by destruct (taskToDelete st). Qed.

Lemma formData_deleteTask_catch task0 err st st' :
  deleteTask_catch getTime task0 err st = Normal st'
  ∨ deleteTask_catch getTime task0 err st = Return st' →
  formData st' = formData st.
Proof.
  unfold deleteTask_catch. destruct err as [message|];
    repeat case_match; intros [E|E]; by simplify_eq.
Qed.

Lemma formData_deleteTask_resume task0 r st :
  formData (deleteTask_resume getTime task0 r st) = formData st.
Proof.
  unfold deleteTask_resume. destruct r as [[]|err]; [done|].
  destruct (deleteTask_catch getTime task0 err st) as [st'|st'] eqn:E; simpl;
    eapply formData_deleteTask_catch; eauto.
Qed.

Lemma step_nameTrimmed e w w' :
  nameTrimmed (ui w) → step getTime e w = Some w' → nameTrimmed (ui w').
Proof.
  unfold nameTrimmed. intros Hw Hstep.
  destruct e; simpl in Hstep; repeat case_match; simplify_eq; simpl; try done.
  - by rewrite formData_loadTasks_resume.
  - rewrite formData_handleInputChange.
    destruct field; simpl; [apply trim_idemp | done].
  - match goal with H : createTask_begin _ = _ |- _ =>
      apply (f_equal fst) in H; simpl in H; subst end.
    by rewrite formData_createTask_begin.
  - rewrite formData_createTask_resume. by destruct (createFailed r).
  - match goal with H : deleteTask_begin _ = _ |- _ =>
      apply (f_equal fst) in H; simpl in H; subst end.
    by rewrite formData_deleteTask_begin.
  - by rewrite formData_deleteTask_resume.
Qed.

Lemma reachable_nameTrimmed w : reachable getTime w → nameTrimmed (ui w).
Proof.
  apply (reachable_ind (λ w, nameTrimmed (ui w))); [done|].
  apply step_nameTrimmed.
Qed.

End Invariants.

(** C10. Every value entered into the create form is stored trimmed: after
    an input event the field holds the trim of the raw input; in every
    reachable world the stored name is its own trim and has no white space at
    either end; the name of a create request is its own trim; and the submit
    button is disabled whenever the stored name trims to the empty string. *)
Theorem form_values_trimmed (getTime : jsstring → option Z) :
  (∀ field value st,
     FormData.get field (formData (handleInputChange field value st)) = trim value)
  ∧ (∀ w, reachable getTime w →
       let name := FormData.name (formData (ui w)) in
       trim name = name ∧ startsClean name ∧ endsClean name)
  ∧ (∀ st st' payload,
       createTask_begin st = (st', Some payload) →
       CreatePayload.name payload = trim (FormData.name (formData st))
       ∧ trim (CreatePayload.name payload) = CreatePayload.name payload)
  ∧ (∀ st,
       trim (FormData.name (formData st)) = [] → createSubmitDisabled st = true).
Proof.
  split_and!.
  - intros field value st. rewrite formData_handleInputChange. by destruct field.
  - intros w Hw. pose proof (reachable_nameTrimmed getTime w Hw) as Hn.
    unfold nameTrimmed in Hn. simpl. split; [done|].
    rewrite <- Hn. split; [apply trim_startsClean | apply trim_endsClean].
  - intros st st' payload Hbegin.
    destruct (decide (trim (FormData.name (formData st)) = [])) as [He|Hne].
    + rewrite (createTask_begin_invalid _ He) in Hbegin. congruence.
    + rewrite (createTask_begin_valid _ Hne) in Hbegin.
      injection Hbegin as _ <-. simpl. split; [done | apply trim_idemp].
  - intros st He. unfold createSubmitDisabled. rewrite He. simpl.
    apply orb_true_r.
Qed.

(** ** The create operation end to end *)

Lemma generateId_fresh store :
  CrudService.generateId store ∉ Task.id <$> store.
Proof.
  unfold CrudService.generateId.
  rewrite <- (elem_of_list_to_set (C := gset jsstring)).
  apply is_fresh.
Qed.

(** C7. Creating without a name fails with a validation error and issues no
    request.  In the form, a name that is empty after trimming makes
    [createTask] record the validation error on the name and stop before any
    request; a name that is not makes it send the trimmed name with the
    form's priority.  In the service, a missing name or one that is empty
    after trimming yields [ValidationError]; any other input yields a task
    with status UPCOMING, the provided priority or MEDIUM when none was
    given, and an id that no stored task has.  In particular every request
    the form sends is accepted, with the priority chosen in the form. *)
Theorem create_requires_name :
  (∀ st,
     trim (FormData.name (formData st)) = [] →
     (createTask_begin st).2 = None
     ∧ validationErrors (createTask_begin st).1 !! lit "name"
       = Some (lit "Task name is required")
     ∧ tasks (createTask_begin st).1 = tasks st)
  ∧ (∀ st,
       trim (FormData.name (formData st)) ≠ [] →
       (createTask_begin st).2
       = Some (CreatePayload.mk (trim (FormData.name (formData st)))
                                (FormData.priority (formData st))))
  ∧ (∀ now input store,
       (∀ n, CrudService.name input = Some n → trim n = []) →
       CrudService.create now input store = inl CrudService.ValidationError)
  ∧ (∀ now input store n,
       CrudService.name input = Some n → trim n ≠ [] →
       ∃ task,
         CrudService.create now input store = inr (task, store ++ [task])
         ∧ Task.status task = TaskStatus.UPCOMING
         ∧ Task.priority task
           = default TaskPriority.MEDIUM (CrudService.priority input)
         ∧ Task.id task ∉ Task.id <$> store)
  ∧ (∀ st payload now store,
       (createTask_begin st).2 = Some payload →
       ∃ task,
         CrudService.create now (CrudService.inputOfPayload payload) store
         = inr (task, store ++ [task])
         ∧ Task.status task = TaskStatus.UPCOMING
         ∧ Task.priority task = FormData.priority (formData st)
         ∧ Task.id task ∉ Task.id <$> store).
Proof.
  split_and!.
  - intros st He. rewrite (createTask_begin_invalid _ He). simpl.
    split_and!; [done | apply lookup_singleton_eq | done].
  - intros st Hne. by rewrite (createTask_begin_valid _ Hne).
  - intros now input store Hname. unfold CrudService.create.
    destruct (CrudService.name input) as [n|]; [|done].
    by rewrite (Hname n eq_refl).
  - intros now input store n Hn Hne. unfold CrudService.create. rewrite Hn.
    destruct (trim n) eqn:E; [done|]. simpl.
    eexists. split_and!; [reflexivity | done | done |].
    apply generateId_fresh.
  - intros st payload now store Hsent.
    destruct (decide (trim (FormData.name (formData st)) = [])) as [He|Hne].
    { rewrite (createTask_begin_invalid _ He) in Hsent. discriminate Hsent. }
    rewrite (createTask_begin_valid _ Hne) in Hsent.
    injection Hsent as <-. unfold CrudService.create. simpl.
    rewrite trim_idemp.
    destruct (trim (FormData.name (formData st))) eqn:E; [done|]. simpl.
    eexists. split_and!; [reflexivity | done | done |].
    apply generateId_fresh.
Qed.

(** ** Sorting by a key *)

Section SortByKey.
Context {A : Type} (key : A → Z).

Lemma sort_insert_Permutation (compareFn : A → A → Z) x l :
  sort_insert compareFn x l ≡ₚ x :: l.
Proof.
  induction l as [|y l IH]; simpl; [done|].
  destruct (0 <? compareFn x y); [|done].
  rewrite IH. apply Permutation_swap.
Qed.

Lemma sort_Permutation (compareFn : A → A → Z) l : sort compareFn l ≡ₚ l.
Proof.
  induction l as [|x l IH]; simpl; [done|].
  by rewrite sort_insert_Permutation, IH.
Qed.

Lemma sort_insert_least x l :
  Forall (λ y, key x ≤ key y) l →
  sort_insert (λ a b, key a - key b) x l = x :: l.
Proof.
  destruct 1 as [|y l Hy _]; simpl; [done|].
  destruct (Z.ltb_spec 0 (key x - key y)); [lia | done].
Qed.



Lemma filter_all (P : A → Prop) `{!∀ x, Decision (P x)} l :
  Forall P l → filter P l = l.
Proof.
  induction 1 as [|x l Hx _ IH]; [done|].
  by rewrite filter_cons_True, IH.
Qed.

Lemma filter_none (P : A → Prop) `{!∀ x, Decision (P x)} l :
  Forall (λ x, ¬ P x) l → filter P l = [].
Proof.
  induction 1 as [|x l Hx _ IH]; [done|].
  by rewrite filter_cons_False.
Qed.

(** Re-inserting at the end of a sorted list: the new element lands behind
    the elements that do not come after it, and nothing else moves. *)
Lemma sort_snoc_sorted l x :
  StronglySorted (λ a b, key a ≤ key b) l →
  sort (λ a b, key a - key b) (l ++ [x]) =
  filter (λ y, key y ≤ key x) l ++ x :: filter (λ y, key x < key y) l.
Proof.
  induction 1 as [|y l Hl IH Hy]; simpl; [done|].
  fold (sort (λ a b, key a - key b) (l ++ [x])). rewrite IH.
  rewrite !filter_cons.
  destruct (decide (key y ≤ key x)) as [Hle|Hgt].
  - rewrite decide_False by lia. simpl.
    apply sort_insert_least.
    rewrite Forall_forall in Hy.
    rewrite Forall_app, Forall_cons. split_and!; [|lia|].
    + apply Forall_forall. intros z [_ Hz]%list_elem_of_filter. by apply Hy.
    + apply Forall_forall. intros z [_ Hz]%list_elem_of_filter. by apply Hy.
  - rewrite decide_True by lia.
    rewrite (filter_none (λ z, key z ≤ key x) l), (filter_all (λ z, key x < key z) l).
    + simpl. destruct (Z.ltb_spec 0 (key y - key x)); [|lia].
      f_equal. by apply sort_insert_least.
    + eapply Forall_impl; [exact Hy|]. simpl. intros z Hz. lia.
    + eapply Forall_impl; [exact Hy|]. simpl. intros z Hz. lia.
Qed.

End SortByKey.

(** ** Sorting by creation time *)

Lemma sort_insert_ext {A} (c1 c2 : A → A → Z) x l :
  Forall (λ y, c1 x y = c2 x y) l → sort_insert c1 x l = sort_insert c2 x l.
Proof.
  induction 1 as [|y l Hy _ IH]; simpl; [done|]. by rewrite Hy, IH.
Qed.

Lemma sort_ext {A} (c1 c2 : A → A → Z) l :
  (∀ x y, x ∈ l → y ∈ l → c1 x y = c2 x y) → sort c1 l = sort c2 l.
Proof.
  induction l as [|x l IH]; intros Heq; simpl; [done|].
  rewrite IH by (intros y z Hy Hz; apply Heq; by right).
  apply sort_insert_ext, Forall_forall. intros y Hy.
  apply Heq; [by left|]. right. by rewrite <- (sort_Permutation c2 l).
Qed.

Lemma filter_ext_in {A} (P Q : A → Prop)
    `{!∀ x, Decision (P x)} `{!∀ x, Decision (Q x)} (l : list A) :
  (∀ x, x ∈ l → (P x ↔ Q x)) → filter P l = filter Q l.
Proof.
  induction l as [|x l IH]; intros Heq; [done|].
  rewrite !filter_cons, IH by (intros y Hy; apply Heq; by right).
  destruct (decide (P x)) as [HP|HP], (decide (Q x)) as [HQ|HQ]; try done.
  - destruct HQ. apply Heq; [by left | done].
  - destruct HP. apply Heq; [by left | done].
Qed.

Lemma StronglySorted_impl_in {A} (R R' : relation A) (l : list A) :
  (∀ x y, x ∈ l → y ∈ l → R x y → R' x y) →
  StronglySorted R l → StronglySorted R' l.
Proof.
  intros Himpl Hs. induction Hs as [|x l Hl IH Hx]; constructor.
  - apply IH. intros y z Hy Hz. apply Himpl; by right.
  - rewrite Forall_forall in Hx. apply Forall_forall. intros y Hy.
    apply Himpl; [by left | by right | by apply Hx].
Qed.

Section CreationOrder.
Variable getTime : jsstring → option Z.

(** Among tasks whose [createdAt] are dates the comparator is the difference
    of the times. *)
Local Abbreviation time :=
  (λ task : ExampleTask.t, default 0 (getTime (ExampleTask.createdAt task))).

Lemma byCreatedAt_dated a b :
  hasCreationTime getTime a → hasCreationTime getTime b →
  sortCompare (byCreatedAt getTime) a b = time a - time b.
Proof.
  unfold hasCreationTime, sortCompare, byCreatedAt.
  by intros [x ->] [y ->].
Qed.

Lemma createdAtLe_dated a b :
  hasCreationTime getTime a → hasCreationTime getTime b →
  createdAtLe getTime a b ↔ time a ≤ time b.
Proof. unfold hasCreationTime, createdAtLe. by intros [x ->] [y ->]. Qed.

Lemma createdAtLt_dated a b :
  hasCreationTime getTime a → hasCreationTime getTime b →
  createdAtLt getTime a b ↔ time a < time b.
Proof. unfold hasCreationTime, createdAtLt. by intros [x ->] [y ->]. Qed.

Lemma createdAtLe_hasCreationTime a b :
  createdAtLe getTime a b →
  hasCreationTime getTime a ∧ hasCreationTime getTime b.
Proof.
  unfold createdAtLe, hasCreationTime.
  destruct (getTime (ExampleTask.createdAt a)),
    (getTime (ExampleTask.createdAt b)); by eauto.
Qed.

Lemma createdAtLt_not_Le a b :
  createdAtLt getTime a b → ¬ createdAtLe getTime b a.
Proof.
  unfold createdAtLt, createdAtLe.
  destruct (getTime (ExampleTask.createdAt a)),
    (getTime (ExampleTask.createdAt b)); try done. lia.
Qed.

Lemma sort_dated l :
  Forall (hasCreationTime getTime) l →
  sort (sortCompare (byCreatedAt getTime)) l = sort (λ a b, time a - time b) l.
Proof.
  rewrite Forall_forall. intros Hl. apply sort_ext.
  intros x y Hx Hy. apply byCreatedAt_dated; by apply Hl.
Qed.

Lemma StronglySorted_dated l :
  Forall (hasCreationTime getTime) l →
  StronglySorted (createdAtLe getTime) l
  ↔ StronglySorted (λ a b, time a ≤ time b) l.
Proof.
  rewrite Forall_forall. intros Hl.
  split; apply StronglySorted_impl_in; intros x y Hx Hy;
    by apply createdAtLe_dated; apply Hl.
Qed.


(** Re-inserting a task at the end of a collection in creation order. *)
Lemma sort_dated_snoc l x :
  Forall (hasCreationTime getTime) (x :: l) →
  StronglySorted (createdAtLe getTime) l →
  sort (sortCompare (byCreatedAt getTime)) (l ++ [x])
  = filter (λ y, createdAtLe getTime y x) l
    ++ x :: filter (λ y, createdAtLt getTime x y) l.
Proof.
  intros Hall Hsorted.
  pose proof Hall as [Hx Hl]%Forall_cons.
  rewrite sort_dated by (rewrite Forall_app, Forall_singleton; done).
  rewrite (sort_snoc_sorted time) by (by apply StronglySorted_dated).
  rewrite Forall_forall in Hl.
  f_equal; [|f_equal]; apply filter_ext_in; intros y Hy; symmetry.
  - apply createdAtLe_dated; [by apply Hl | done].
  - apply createdAtLt_dated; [done | by apply Hl].
Qed.

End CreationOrder.

(** ** Deleting a task *)

Lemma not_elem_of_released (x : jsstring) (X : gset jsstring) : x ∉ X ∖ {[x]}.
Proof. rewrite elem_of_difference, elem_of_singleton. by intros [_ []]. Qed.

Section Delete.
Variable getTime : jsstring → option Z.

Lemma deleteTask_begin_selected st task0 :
  taskToDelete st = Some task0 →
  deleteTask_begin st =
  (st ▷ setDeletingTasks (λ prev, prev ∪ {[ExampleTask.id task0]})
      ▷ setDeleteError None
      ▷ setTasks (λ prev, filter (λ task, ExampleTask.id task ≠ ExampleTask.id task0) prev),
   Some task0).
Proof. intros H. unfold deleteTask_begin. by rewrite H. Qed.

Lemma deleteTask_begin_issued st st1 task0 :
  deleteTask_begin st = (st1, Some task0) → taskToDelete st = Some task0.
Proof.
  unfold deleteTask_begin. destruct (taskToDelete st); intros; by simplify_eq.
Qed.

Lemma deleteTask_catch_notFound task0 err st :
  isNotFound err = true →
  deleteTask_catch getTime task0 err st = Return (handleCloseDeleteModal st).
Proof.
  destruct err as [message|]; simpl; [|done].
  unfold deleteTask_catch. by intros ->.
Qed.

Lemma deleteTask_catch_other task0 err st :
  isNotFound err = false →
  deleteTask_catch getTime task0 err st =
  Normal (st ▷ setTasks (λ prev, sort (sortCompare (byCreatedAt getTime)) (prev ++ [task0]))
             ▷ setDeleteError (Some (deleteErrorMessage err))).
Proof.
  destruct err as [message|]; simpl; [|done].
  unfold deleteTask_catch. intros ->.
  by repeat (destruct (_ || _)).
Qed.

Lemma deletingTasks_deleteTask_resume task0 r st :
  deletingTasks (deleteTask_resume getTime task0 r st) =
  deletingTasks st ∖ {[ExampleTask.id task0]}.
Proof.
  unfold deleteTask_resume. destruct r as [[]|err]; [done|].
  destruct (isNotFound err) eqn:E.
  - by rewrite deleteTask_catch_notFound.
  - by rewrite deleteTask_catch_other.
Qed.

(** C9. Whenever the delete handler runs with a selected task, the task's id
    enters the "deleting" set when the request is issued and is taken out of
    it when the request settles, whatever the outcome: success, the
    not-found early return, or any other failure. *)
Theorem deleteTask_always_releases (st : State) (task0 : ExampleTask.t) :
  taskToDelete st = Some task0 →
  let taskId := ExampleTask.id task0 in
  ∃ st1,
    deleteTask_begin st = (st1, Some task0)
    ∧ taskId ∈ deletingTasks st1
    ∧ ∀ (r : Settled unit) (st' : State),
        deletingTasks (deleteTask_resume getTime task0 r st')
          = deletingTasks st' ∖ {[taskId]}
        ∧ taskId ∉ deletingTasks (deleteTask_resume getTime task0 r st').
Proof.
  intros Hsel taskId. eexists. split; [by apply deleteTask_begin_selected|].
  split; [simpl; apply elem_of_union_r; by apply elem_of_singleton|].
  intros r st'. rewrite deletingTasks_deleteTask_resume.
  split; [done | apply not_elem_of_released].
Qed.

(** C2. When the DELETE request of an optimistic delete fails with a
    not-found error, the task stays removed: the continuation leaves the
    local collection as the optimistic removal left it, so no task with that
    id is in it, and it closes the confirmation dialog with no error set. *)
Theorem deleteTask_not_found (st0 st1 : State) (task0 : ExampleTask.t) (err : Thrown) :
  deleteTask_begin st0 = (st1, Some task0) →
  isNotFound err = true →
  let taskId := ExampleTask.id task0 in
  let st2 := deleteTask_resume getTime task0 (Rejected err) st1 in
  tasks st1 = filter (λ task, ExampleTask.id task ≠ taskId) (tasks st0)
  ∧ tasks st2 = tasks st1
  ∧ (∀ task, task ∈ tasks st2 → ExampleTask.id task ≠ taskId)
  ∧ showDeleteModal st2 = false
  ∧ taskToDelete st2 = None
  ∧ deleteError st2 = None
  ∧ deleteErrorShown st2 = false
  ∧ ∀ st : State,
      let st' := deleteTask_resume getTime task0 (Rejected err) st in
      tasks st' = tasks st ∧ showDeleteModal st' = false ∧ deleteError st' = None.
Proof.
  intros Hbegin Hnf taskId st2.
  pose proof (deleteTask_begin_issued _ _ _ Hbegin) as Hsel.
  rewrite (deleteTask_begin_selected _ _ Hsel) in Hbegin.
  injection Hbegin as <-.
  assert (∀ st, deleteTask_resume getTime task0 (Rejected err) st
                = st ▷ handleCloseDeleteModal
                     ▷ setDeletingTasks (λ prev, prev ∖ {[taskId]})) as Hres.
  { intros st. unfold deleteTask_resume.
    by rewrite deleteTask_catch_notFound. }
  subst st2. rewrite Hres. simpl. split_and!; try done.
  - intros task [Hne _]%list_elem_of_filter. exact Hne.
  - intros st. by rewrite Hres.
Qed.


End Delete.

(** ** One request in flight per record *)

Section InFlight.
Variable getTime : jsstring → option Z.

Lemma deletingTasks_handleInputChange field value st :
  deletingTasks (handleInputChange field value st) = deletingTasks st.
Proof.
  unfold handleInputChange.
  by destruct (truthy_opt (createError st)), (truthy_opt (_ !! _)).
Qed.

Lemma deletingTasks_createTask_begin st :
  deletingTasks (createTask_begin st).1 = deletingTasks st.
Proof.
  unfold createTask_begin. rewrite validateForm_spec.
  by destruct (truthy _).
Qed.

Lemma deletingTasks_createTask_resume r st :
  deletingTasks (createTask_resume r st) = deletingTasks st.
Proof. by destruct r as [[response|]|[message|]]. Qed.

Lemma deletingTasks_loadTasks_resume r st :
  deletingTasks (loadTasks_resume r st) = deletingTasks st.
Proof. by destruct r. Qed.

Lemma confirmDeleteDisabled_false st :
  confirmDeleteDisabled st = false ↔
  ∃ task0, taskToDelete st = Some task0
           ∧ ExampleTask.id task0 ∉ deletingTasks st.
Proof.
  unfold confirmDeleteDisabled. destruct (taskToDelete st) as [task0|].
  - rewrite bool_decide_eq_false. split; [by eauto|].
    by intros (? & [= <-] & ?).
  - split; [done | by intros (? & ? & ?)].
Qed.

Lemma lookup_delete_split {A} (l : list A) k x :
  l !! k = Some x → ∃ l1 l2, l = l1 ++ x :: l2 ∧ delete k l = l1 ++ l2.
Proof.
  intros Hk. exists (take k l), (drop (S k) l). split.
  - by rewrite take_drop_middle.
  - apply delete_take_drop.
Qed.

Lemma step_inFlightInv e w w' :
  inFlightInv w → step getTime e w = Some w' → inFlightInv w'.
Proof.
  intros [Hnd Hset] Hstep. unfold inFlightInv.
  destruct e; unfold step in Hstep.
  - destruct (loadInFlight w); simplify_eq. simpl.
    setoid_rewrite deletingTasks_loadTasks_resume. done.
  - by simplify_eq.
  - by simplify_eq.
  - by simplify_eq.
  - destruct (cancelCreateDisabled _); by simplify_eq.
  - simplify_eq. simpl. setoid_rewrite deletingTasks_handleInputChange. done.
  - destruct (createSubmitDisabled _); [done|].
    destruct (createTask_begin (ui w)) as [st request] eqn:E. simplify_eq. simpl.
    apply (f_equal fst) in E. simpl in E. subst st.
    setoid_rewrite deletingTasks_createTask_begin. done.
  - destruct (createsInFlight w !! k); simplify_eq. simpl.
    setoid_rewrite deletingTasks_createTask_resume. done.
  - destruct (_ && _); by simplify_eq.
  - by simplify_eq.
  - destruct (cancelDeleteDisabled _); by simplify_eq.
  - destruct (confirmDeleteDisabled (ui w)) eqn:Hdis; [done|].
    apply confirmDeleteDisabled_false in Hdis as (task0 & Hsel & Hfree).
    rewrite (deleteTask_begin_selected _ _ Hsel) in Hstep.
    simplify_eq. simpl. rewrite fmap_app. simpl. split.
    + apply NoDup_app. split_and!; [done| |apply NoDup_singleton].
      intros taskId Hin ->%list_elem_of_singleton. by apply Hfree, Hset.
    + intros taskId.
      rewrite elem_of_union, elem_of_singleton, elem_of_app, list_elem_of_singleton.
      by rewrite Hset.
  - destruct (deletesInFlight w !! k) as [task0|] eqn:Hk; simplify_eq. simpl.
    destruct (lookup_delete_split _ _ _ Hk) as (l1 & l2 & Hl & ->).
    rewrite Hl in Hnd, Hset. rewrite fmap_app, fmap_cons in Hnd, Hset.
    apply NoDup_app in Hnd as (Hnd1 & Hdisj & Hnd2).
    apply NoDup_cons in Hnd2 as [Hnot2 Hnd2].
    rewrite fmap_app. split.
    + apply NoDup_app. split_and!; [done| |done].
      intros taskId H1 H2. apply (Hdisj taskId H1). by right.
    + intros taskId.
      rewrite deletingTasks_deleteTask_resume, elem_of_difference,
        elem_of_singleton, Hset, !elem_of_app, elem_of_cons.
      split.
      * intros [[H1|[->|H2]] Hne]; by eauto.
      * intros [H1|H2]; split; eauto.
        -- intros ->. apply (Hdisj _ H1). by left.
        -- by intros ->.
Qed.

Lemma reachable_inFlightInv w : reachable getTime w → inFlightInv w.
Proof.
  apply (reachable_ind getTime inFlightInv).
  - split; [constructor|]. intros taskId. simpl.
    by rewrite elem_of_empty, elem_of_nil.
  - apply step_inFlightInv.
Qed.

Lemma NoDup_fmap_filter_length {A B} `{EqDecision B} (f : A → B) (l : list A) y :
  NoDup (f <$> l) → (length (filter (λ x, f x = y) l) ≤ 1)%nat.
Proof.
  induction l as [|x l IH]; simpl; [lia|].
  rewrite NoDup_cons. intros [Hx Hnd]. rewrite filter_cons.
  destruct (decide (f x = y)) as [<-|]; [|by apply IH].
  rewrite (filter_none (λ z, f z = f x) l); [simpl; lia|].
  apply Forall_forall. intros z Hz Heq. apply Hx. rewrite <- Heq.
  by apply list_elem_of_fmap_2.
Qed.

End InFlight.

(** C6. In every reachable world at most one DELETE request is in flight per
    record id, and an id is in the "deleting" set exactly while a request for
    it is in flight.  The set is consulted before a request starts: every
    request that an event puts in flight comes from the Delete button of the
    dialog, for the selected task, whose id is then outside the set, and
    while the selected task's id is in the set the button offers no click.
    The controls of a record (the View and Delete buttons of its row, the
    Cancel and Delete buttons of the dialog that has it selected) are
    disabled exactly when its id is in the set. *)
Theorem one_delete_in_flight_per_id (getTime : jsstring → option Z) (w : World) :
  reachable getTime w →
  (∀ taskId, (length (deletesInFlightFor taskId w) ≤ 1)%nat)
  ∧ (∀ taskId, taskId ∈ deletingTasks (ui w) ↔ deletesInFlightFor taskId w ≠ [])
  ∧ (∀ e w' task0,
       step getTime e w = Some w' →
       task0 ∈ deletesInFlight w' →
       task0 ∈ deletesInFlight w
       ∨ (e = ClickConfirmDelete
          ∧ taskToDelete (ui w) = Some task0
          ∧ ExampleTask.id task0 ∉ deletingTasks (ui w)))
  ∧ (∀ task0,
       taskToDelete (ui w) = Some task0 →
       ExampleTask.id task0 ∈ deletingTasks (ui w) →
       step getTime ClickConfirmDelete w = None)
  ∧ (∀ task,
       rowControlsDisabled task (ui w) = true
       ↔ ExampleTask.id task ∈ deletingTasks (ui w))
  ∧ (∀ task0,
       taskToDelete (ui w) = Some task0 →
       (confirmDeleteDisabled (ui w) = true
        ↔ ExampleTask.id task0 ∈ deletingTasks (ui w))
       ∧ (cancelDeleteDisabled (ui w) = true
          ↔ ExampleTask.id task0 ∈ deletingTasks (ui w))).
Proof.
  intros Hreach.
  destruct (reachable_inFlightInv getTime w Hreach) as [Hnd Hset].
  split_and!.
  - intros taskId. unfold deletesInFlightFor. by apply NoDup_fmap_filter_length.
  - intros taskId. rewrite Hset. unfold deletesInFlightFor.
    rewrite list_elem_of_fmap. split.
    + intros (task & -> & Hin) Hnil.
      apply (filter_nil_not_elem_of _ _ task) in Hnil; done.
    + destruct (filter _ _) as [|task l] eqn:E; [done|]. intros _.
      assert (task ∈ filter (λ task, ExampleTask.id task = taskId)
                            (deletesInFlight w)) as Hin.
      { rewrite E. by left. }
      apply list_elem_of_filter in Hin as [<- Hin]. by exists task.
  - intros e w' task0 Hstep Hin.
    destruct e; unfold step in Hstep;
      try (repeat case_match; simplify_eq; simpl in Hin; by left).
    + destruct (confirmDeleteDisabled (ui w)) eqn:Hdis; [done|].
      apply confirmDeleteDisabled_false in Hdis as (task1 & Hsel & Hfree).
      rewrite (deleteTask_begin_selected _ _ Hsel) in Hstep.
      simplify_eq. simpl in Hin.
      apply elem_of_app in Hin as [Hin|Hin]; [by left|].
      apply list_elem_of_singleton in Hin as ->. by right.
    + destruct (deletesInFlight w !! k); simplify_eq. simpl in Hin.
      left. by eapply list_elem_of_delete_inv.
  - intros task0 Hsel Hin. unfold step, confirmDeleteDisabled.
    by rewrite Hsel, bool_decide_eq_true_2.
  - intros task. unfold rowControlsDisabled. apply bool_decide_eq_true.
  - intros task0 Hsel. unfold confirmDeleteDisabled, cancelDeleteDisabled.
    rewrite Hsel. split; apply bool_decide_eq_true.
Qed.

(** ** Optimistic update and rollback *)

Section Update.
Import OptimisticUpdate.

Lemma visible_Some taskId l x :
  visible taskId l = Some x → Task.id x = taskId ∧ x ∈ l.
Proof.
  unfold visible. intros Hx.
  apply head_Some_elem_of in Hx. by apply list_elem_of_filter in Hx.
Qed.

Lemma visible_replaceTask taskId new l :
  Task.id new = taskId →
  is_Some (visible taskId l) →
  visible taskId (replaceTask taskId new l) = Some new.
Proof.
  intros Hid. unfold visible, replaceTask.
  induction l as [|t l IH]; [by intros [? ?]|].
  rewrite fmap_cons, !filter_cons.
  destruct (decide (Task.id t = taskId)) as [Ht|Ht].
  - by rewrite decide_True.
  - by rewrite decide_False.
Qed.

Lemma replaceTask_replaceTask taskId a b l :
  Task.id a = taskId →
  replaceTask taskId b (replaceTask taskId a l) = replaceTask taskId b l.
Proof.
  intros Ha. unfold replaceTask. rewrite <- list_fmap_compose.
  apply list_fmap_ext. intros i t _. simpl.
  destruct (decide (Task.id t = taskId)).
  - by rewrite decide_True.
  - by rewrite decide_False.
Qed.

Lemma replaceTask_absent taskId new l :
  taskId ∉ Task.id <$> l → replaceTask taskId new l = l.
Proof.
  unfold replaceTask. induction l as [|t l IH]; [done|].
  rewrite !fmap_cons, not_elem_of_cons. intros [Hne Hnot].
  rewrite decide_False by done. by rewrite IH.
Qed.

Lemma replaceTask_visible taskId x l :
  NoDup (Task.id <$> l) → visible taskId l = Some x → replaceTask taskId x l = l.
Proof.
  unfold visible. induction l as [|t l IH]; [done|].
  rewrite fmap_cons, NoDup_cons, filter_cons. intros [Hnot Hnd].
  change (replaceTask taskId x (t :: l))
    with ((if decide (Task.id t = taskId) then x else t) :: replaceTask taskId x l).
  destruct (decide (Task.id t = taskId)) as [Ht|Ht]; simpl.
  - intros [= <-]. f_equal. apply replaceTask_absent. by rewrite <- Ht.
  - intros Hx. f_equal. by apply IH.
Qed.

Lemma update_begin_issued taskId p st st1 snapshot :
  update_begin taskId p st = (st1, Some snapshot) →
  (taskId ∉ updatingTasks st)
  ∧ visible taskId (tasks st) = Some snapshot
  ∧ st1 = mkState (replaceTask taskId (applyPatch p snapshot) (tasks st))
                  (updatingTasks st ∪ {[taskId]}) (updateError st).
Proof.
  unfold update_begin. destruct (decide (taskId ∈ updatingTasks st)); [done|].
  destruct (visible taskId (tasks st)); [|done].
  intros. by simplify_eq.
Qed.

(** An update of a record that already has one in flight is not started. *)
Lemma update_begin_in_flight taskId p st :
  taskId ∈ updatingTasks st → update_begin taskId p st = (st, None).
Proof. intros Hin. unfold update_begin. by rewrite decide_True. Qed.

Lemma updatingTasks_update_resume taskId snapshot o st :
  updatingTasks (update_resume taskId snapshot o st) =
  updatingTasks st ∖ {[taskId]}.
Proof. by destruct o. Qed.

(** C1. An optimistic update that the server rejects leaves no trace but the
    error: once the request has settled, the client-visible record is the
    pre-mutation snapshot again (and, ids being unique, the whole collection
    is what it was), the error message is set, and the record's id is not in
    the "updating" set.  The id leaves that set however the request ends:
    success, failure or exception. *)
Theorem update_failure_rolls_back (st st1 : State) (taskId : jsstring)
    (p : Patch) (snapshot : Task.t) (message : jsstring) :
  update_begin taskId p st = (st1, Some snapshot) →
  let st2 := update_resume taskId snapshot (Failure message) st1 in
  visible taskId (tasks st) = Some snapshot
  ∧ visible taskId (tasks st1) = Some (applyPatch p snapshot)
  ∧ taskId ∈ updatingTasks st1
  ∧ visible taskId (tasks st2) = Some snapshot
  ∧ (NoDup (Task.id <$> tasks st) → tasks st2 = tasks st)
  ∧ updateError st2 = Some message
  ∧ (taskId ∉ updatingTasks st2)
  ∧ ∀ (o : Outcome) (st' : State),
      taskId ∉ updatingTasks (update_resume taskId snapshot o st').
Proof.
  intros (Hfree & Hvis & ->)%update_begin_issued.
  destruct (visible_Some _ _ _ Hvis) as [Hid _].
  simpl. split_and!; try done.
  - by apply visible_replaceTask.
  - apply elem_of_union_r. by apply elem_of_singleton.
  - rewrite replaceTask_replaceTask by done. by apply visible_replaceTask.
  - intros Hnd. rewrite replaceTask_replaceTask by done.
    by apply replaceTask_visible.
  - apply not_elem_of_released.
  - intros o st'. rewrite updatingTasks_update_resume.
    apply not_elem_of_released.
Qed.

End Update.

(** ** Worked examples *)

Section Samples.
Import Sample.

(** The three loaded tasks, one of each status, fill one board each. *)
Lemma boards_partition_sample :
  Forall (λ task, ExampleTask.status task ∈ TaskStatus.values) (tasks loaded)
  ∧ upcomingTasks loaded ++ inProgressTasks loaded
      ++ completedTasks loaded ≡ₚ tasks loaded
  ∧ ∀ task, task ∈ tasks loaded →
      ∀ s, s ∈ TaskStatus.values →
        (task ∈ tasksWithStatus s (tasks loaded) ↔ s = ExampleTask.status task).
Proof.
  assert (Forall (λ task, ExampleTask.status task ∈ TaskStatus.values)
                 (tasks loaded)) as Hvalid.
  { repeat constructor. }
  split; [exact Hvalid|].
  exact (boards_partition loaded Hvalid).
Defined.

(** A low-priority task is raised to high priority and the server rejects the
    update: the visible record is the low-priority one again. *)
Lemma update_failure_rolls_back_sample :
  let st1 := (OptimisticUpdate.update_begin (lit "t1") raisePriority idle).1 in
  let st2 := OptimisticUpdate.update_resume (lit "t1") lowTask
               (OptimisticUpdate.Failure (lit "HTTP error! status: 500")) st1 in
  OptimisticUpdate.update_begin (lit "t1") raisePriority idle = (st1, Some lowTask)
  ∧ Task.priority <$> OptimisticUpdate.visible (lit "t1") (OptimisticUpdate.tasks st1)
    = Some TaskPriority.HIGH
  ∧ Task.priority <$> OptimisticUpdate.visible (lit "t1") (OptimisticUpdate.tasks st2)
    = Some TaskPriority.LOW
  ∧ OptimisticUpdate.updateError st2 = Some (lit "HTTP error! status: 500")
  ∧ (lit "t1" ∉ OptimisticUpdate.updatingTasks st2).
Proof.
  intros st1 st2.
  assert (OptimisticUpdate.update_begin (lit "t1") raisePriority idle
          = (st1, Some lowTask)) as Hbegin by (vm_compute; reflexivity).
  destruct (update_failure_rolls_back idle st1 (lit "t1") raisePriority lowTask
              (lit "HTTP error! status: 500") Hbegin)
    as (_ & Hpatched & _ & Hback & _ & Herr & Hout & _).
  split; [exact Hbegin|]. split; [by rewrite Hpatched|].
  split; [subst st2; by rewrite Hback|]. split; [exact Herr | exact Hout].
Defined.

(** The second task is deleted and the server answers 404: the task stays
    out and the dialog is closed. *)
Lemma deleteTask_not_found_sample :
  let st1 := (deleteTask_begin selected).1 in
  let st2 := deleteTask_resume getTime reviewTask (Rejected notFoundError) st1 in
  deleteTask_begin selected = (st1, Some reviewTask)
  ∧ isNotFound notFoundError = true
  ∧ tasks st2 = [specTask; shipTask]
  ∧ showDeleteModal st2 = false
  ∧ deleteError st2 = None.
Proof.
  intros st1 st2.
  assert (deleteTask_begin selected = (st1, Some reviewTask)) as Hbegin
    by (vm_compute; reflexivity).
  assert (isNotFound notFoundError = true) as Hnf by (vm_compute; reflexivity).
  destruct (deleteTask_not_found getTime selected st1 reviewTask notFoundError
              Hbegin Hnf)
    as (Hremoved & Hkept & _ & Hclosed & _ & Herr & _).
  split; [exact Hbegin|]. split; [exact Hnf|].
  split; [subst st2; rewrite Hkept, Hremoved; vm_compute; reflexivity|].
  split; [exact Hclosed | exact Herr].
Defined.



(** With the second task's deletion in flight, its id is in the set, one
    request is in flight for it, and the dialog's Delete button offers no
    second click. *)
Lemma one_delete_in_flight_per_id_sample :
  reachable getTime deletingWorld
  ∧ taskToDelete (ui deletingWorld) = Some reviewTask
  ∧ ExampleTask.id reviewTask ∈ deletingTasks (ui deletingWorld)
  ∧ (length (deletesInFlightFor (ExampleTask.id reviewTask) deletingWorld) ≤ 1)%nat
  ∧ step getTime ClickConfirmDelete deletingWorld = None
  ∧ confirmDeleteDisabled (ui deletingWorld) = true.
Proof.
  assert (reachable getTime deletingWorld) as Hreach.
  { exists deleting. vm_compute. reflexivity. }
  assert (taskToDelete (ui deletingWorld) = Some reviewTask) as Hsel
    by (vm_compute; reflexivity).
  destruct (one_delete_in_flight_per_id getTime deletingWorld Hreach)
    as (Hone & Hset & _ & Hguard & _ & Hdialog).
  assert (ExampleTask.id reviewTask ∈ deletingTasks (ui deletingWorld)) as Hin.
  { apply Hset. vm_compute. discriminate. }
  split; [exact Hreach|]. split; [exact Hsel|]. split; [exact Hin|].
  split; [apply Hone|]. split; [by apply (Hguard reviewTask)|].
  by apply (Hdialog reviewTask Hsel).
Defined.

(** The second task is selected and its deletion confirmed: its id is in the
    set while the request is in flight and out of it after any outcome. *)
Lemma deleteTask_always_releases_sample :
  taskToDelete selected = Some reviewTask
  ∧ ExampleTask.id reviewTask ∈ deletingTasks (deleteTask_begin selected).1
  ∧ ∀ r, ExampleTask.id reviewTask
         ∉ deletingTasks (deleteTask_resume getTime reviewTask r
                            (deleteTask_begin selected).1).
Proof.
  assert (taskToDelete selected = Some reviewTask) as Hsel by reflexivity.
  destruct (deleteTask_always_releases getTime selected reviewTask Hsel)
    as (st1 & Hbegin & Hin & Hout).
  rewrite Hbegin. simpl. split; [exact Hsel|]. split; [exact Hin|].
  intros r. apply Hout.
Defined.

(** Typing "  Write docs " stores "Write docs"; typing only white space
    stores the empty name, keeps the submit button disabled and, were
    [createTask] to run, stops it at the validation error. *)
Lemma form_values_trimmed_sample :
  FormData.name (formData typed) = lit "Write docs"
  ∧ (createTask_begin typed).2 = Some typedPayload
  ∧ trim (CreatePayload.name typedPayload) = CreatePayload.name typedPayload
  ∧ trim (FormData.name (formData blank)) = []
  ∧ createSubmitDisabled blank = true
  ∧ reachable getTime deletingWorld
  ∧ trim (FormData.name (formData (ui deletingWorld)))
    = FormData.name (formData (ui deletingWorld)).
Proof.
  destruct (form_values_trimmed getTime) as (Hstored & Hreach & Hpayload & Hsubmit).
  assert (createTask_begin typed = ((createTask_begin typed).1, Some typedPayload))
    as Hbegin by (vm_compute; reflexivity).
  assert (trim (FormData.name (formData blank)) = []) as Hblank
    by (vm_compute; reflexivity).
  assert (reachable getTime deletingWorld) as Hw.
  { exists deleting. vm_compute. reflexivity. }
  split.
  { pose proof (Hstored FormData.Name (lit "  Write docs ") (handleNewTask loaded)) as H.
    simpl in H. unfold typed. rewrite H. vm_compute. reflexivity. }
  split; [by rewrite Hbegin|].
  split; [exact (proj2 (Hpayload _ _ _ Hbegin))|].
  split; [exact Hblank|]. split; [exact (Hsubmit blank Hblank)|].
  split; [exact Hw | exact (proj1 (Hreach deletingWorld Hw))].
Defined.

(** With only white space typed, [createTask] sends nothing; the service
    rejects a blank name, and for "Write spec" with high priority it returns
    an UPCOMING, high-priority task under an id the store did not have. *)
Lemma create_requires_name_sample :
  trim (FormData.name (formData blank)) = []
  ∧ (createTask_begin blank).2 = None
  ∧ CrudService.create (lit "2000") (CrudService.mkInput (Some (lit "  ")) None None)
      [lowTask] = inl CrudService.ValidationError
  ∧ ∃ task,
      CrudService.create (lit "2000") writeSpec [lowTask] = inr (task, [lowTask; task])
      ∧ Task.status task = TaskStatus.UPCOMING
      ∧ Task.priority task = TaskPriority.HIGH
      ∧ Task.id task ≠ Task.id lowTask.
Proof.
  destruct create_requires_name as (Hform & _ & Hreject & Haccept & _).
  assert (trim (FormData.name (formData blank)) = []) as Hblank
    by (vm_compute; reflexivity).
  split; [exact Hblank|]. split; [exact (proj1 (Hform blank Hblank))|].
  split.
  { apply Hreject. intros n [= <-]. vm_compute. reflexivity. }
  destruct (Haccept (lit "2000") writeSpec [lowTask] (lit "Write spec") eq_refl)
    as (task & Hcreate & Hstatus & Hpriority & Hfresh).
  { vm_compute. discriminate. }
  exists task. split; [exact Hcreate|]. split; [exact Hstatus|].
  split; [exact Hpriority|].
  intros Heq. apply Hfresh. rewrite Heq. by left.
Defined.

End Samples.

(** * Further properties of the list page *)

(** ** The shape of each handler's result *)

Section Shapes.
Variable getTime : jsstring → option Z.

(** [deleteTask] closes the dialog when the request succeeds or is classified
    as not found, and rolls back otherwise; it releases the id in both
    cases. *)
Lemma deleteTask_resume_shape task0 r st :
  deleteTask_resume getTime task0 r st =
  match r with
  | Rejected err =>
      if isNotFound err
      then st ▷ handleCloseDeleteModal
              ▷ setDeletingTasks (λ prev, prev ∖ {[ExampleTask.id task0]})
      else st ▷ setTasks (λ prev, sort (sortCompare (byCreatedAt getTime)) (prev ++ [task0]))
              ▷ setDeleteError (Some (deleteErrorMessage err))
              ▷ setDeletingTasks (λ prev, prev ∖ {[ExampleTask.id task0]})
  | Resolved _ =>
      st ▷ handleCloseDeleteModal
         ▷ setDeletingTasks (λ prev, prev ∖ {[ExampleTask.id task0]})
  end.
Proof.
  unfold deleteTask_resume. destruct r as [[]|err]; [done|].
  destruct (isNotFound err) eqn:E.
  - by rewrite deleteTask_catch_notFound.
  - by rewrite deleteTask_catch_other.
Qed.

Lemma createSubmitDisabled_false st :
  createSubmitDisabled st = false →
  isCreating st = false ∧ trim (FormData.name (formData st)) ≠ [].
Proof.
  unfold createSubmitDisabled. intros [Hc Hn]%orb_false_elim.
  split; [done|]. intros He. by rewrite He in Hn.
Qed.

End Shapes.

(** Case analysis on an event of the page: one goal per way its handler can
    run, with the handler's result spelled out as a chain of setters. *)
Ltac page_fields :=
  cbn [ui loadInFlight createsInFlight deletesInFlight withUi fst snd finally
       tasks isLoading error showIntroAlert showCreateModal isCreating
       createError formData validationErrors deletingTasks showDeleteModal
       taskToDelete deleteError
       setTasks setIsLoading setError setShowIntroAlert setShowCreateModal
       setIsCreating setCreateError setFormData setValidationErrors
       setDeletingTasks setShowDeleteModal setTaskToDelete setDeleteError
       loadTasks_resume createTask_resume handleNewTask handleCloseModal
       resetForm handleDeleteTask handleCloseDeleteModal] in *.

Ltac page_step_cases Hstep :=
  unfold step in Hstep;
  repeat case_match; simplify_eq;
  repeat match goal with
  | H : createSubmitDisabled _ = false |- _ =>
      apply createSubmitDisabled_false in H as [? ?]
  | H : confirmDeleteDisabled _ = false |- _ =>
      apply confirmDeleteDisabled_false in H as (? & ? & ?)
  | H : createTask_begin ?st = _, Hne : trim (FormData.name (formData ?st)) ≠ [] |- _ =>
      rewrite (createTask_begin_valid st Hne) in H; simplify_eq
  | H : deleteTask_begin ?st = _, Hsel : taskToDelete ?st = Some _ |- _ =>
      rewrite (deleteTask_begin_selected st _ Hsel) in H; simplify_eq
  end;
  cbn [withUi ui loadInFlight createsInFlight deletesInFlight] in *;
  rewrite ?deleteTask_resume_shape;
  unfold handleInputChange, loadTasks_resume, createTask_resume;
  repeat case_match;
  page_fields.

Section PageInvariants.
Variable getTime : jsstring → option Z.

(** *** The initial load *)

Lemma step_spinner e w w' :
  isLoading (ui w) = loadInFlight w
  ∧ (error (ui w) ≠ None → loadInFlight w = false) →
  step getTime e w = Some w' →
  isLoading (ui w') = loadInFlight w'
  ∧ (error (ui w') ≠ None → loadInFlight w' = false).
Proof.
  intros [Hspin Herr] Hstep.
  destruct e; page_step_cases Hstep; auto.
Qed.

Lemma step_error_frame e w w' :
  loadInFlight w = false →
  step getTime e w = Some w' →
  error (ui w') = error (ui w) ∧ isLoading (ui w') = isLoading (ui w)
  ∧ loadInFlight w' = false.
Proof.
  intros Hdone Hstep.
  destruct e; page_step_cases Hstep; auto; congruence.
Qed.

(** X1. The spinner of the list page is shown exactly while the initial
    request is in flight, and a load error can only be present once that
    request has settled.  From then on no event changes the load error or
    brings the spinner back: the page offers no retry and no way to dismiss
    the error. *)
Theorem load_spinner_and_error (w : World) :
  reachable getTime w →
  isLoading (ui w) = loadInFlight w
  ∧ (error (ui w) ≠ None → loadInFlight w = false)
  ∧ (loadInFlight w = false →
     ∀ e w', step getTime e w = Some w' →
       error (ui w') = error (ui w)
       ∧ isLoading (ui w') = false
       ∧ loadInFlight w' = false).
Proof.
  intros Hreach.
  assert (isLoading (ui w) = loadInFlight w
          ∧ (error (ui w) ≠ None → loadInFlight w = false)) as [Hspin Herr].
  { revert w Hreach. apply (reachable_ind getTime); [done|].
    intros e w w' Hw Hstep. by eapply step_spinner. }
  split_and!; [done..|].
  intros Hdone e w' Hstep.
  destruct (step_error_frame e w w' Hdone Hstep) as (He & Hl & Hf).
  split_and!; [done| |done]. rewrite Hl, Hspin. done.
Qed.

(** *** One create request at a time *)

Lemma step_createInFlight e w w' :
  (length (createsInFlight w) ≤ 1)%nat
  ∧ isCreating (ui w) = bool_decide (createsInFlight w ≠ []) →
  step getTime e w = Some w' →
  (length (createsInFlight w') ≤ 1)%nat
  ∧ isCreating (ui w') = bool_decide (createsInFlight w' ≠ []).
Proof.
  intros [Hlen Hflag] Hstep.
  destruct e; try (page_step_cases Hstep; by auto).
  - (* the Create button *)
    page_step_cases Hstep.
    assert (createsInFlight w = []) as ->.
    { destruct (createsInFlight w); [done|].
      rewrite bool_decide_eq_true_2 in Hflag by done. congruence. }
    split; [simpl; lia | by rewrite bool_decide_eq_true_2].
  - (* a create request settles *)
    unfold step in Hstep.
    destruct (createsInFlight w) as [|p [|q l]] eqn:El; simpl in Hlen; [| |lia].
    + destruct k; done.
    + destruct k as [|[|k]]; [|done..].
      cbn [lookup list_lookup delete list_delete] in Hstep.
      simplify_eq. cbn [ui createsInFlight]. split; [simpl; lia|].
      rewrite bool_decide_eq_false_2 by (by intros []).
      by destruct r as [[response|]|err].
Qed.

(** X2. At most one create request is in flight, and [isCreating] holds
    exactly while one is: the Cancel and Create buttons of the dialog are
    disabled during that time.  Every click the Create button offers sends
    exactly one request, whose name is the stored name and is not empty. *)
Theorem one_create_in_flight (w : World) :
  reachable getTime w →
  (length (createsInFlight w) ≤ 1)%nat
  ∧ (isCreating (ui w) = true ↔ createsInFlight w ≠ [])
  ∧ (createsInFlight w ≠ [] →
     cancelCreateDisabled (ui w) = true ∧ createSubmitDisabled (ui w) = true)
  ∧ (∀ w', step getTime ClickCreate w = Some w' →
       createsInFlight w = []
       ∧ createsInFlight w'
         = [CreatePayload.mk (FormData.name (formData (ui w)))
                             (FormData.priority (formData (ui w)))]
       ∧ FormData.name (formData (ui w)) ≠ []).
Proof.
  intros Hreach.
  assert ((length (createsInFlight w) ≤ 1)%nat
          ∧ isCreating (ui w) = bool_decide (createsInFlight w ≠ []))
    as [Hlen Hflag].
  { revert w Hreach. apply (reachable_ind getTime); [split; [simpl; lia | done]|].
    intros e w w' Hw Hstep. by eapply step_createInFlight. }
  pose proof (reachable_nameTrimmed getTime w Hreach) as Hname.
  unfold nameTrimmed in Hname.
  assert (isCreating (ui w) = true ↔ createsInFlight w ≠ []) as Hiff.
  { rewrite Hflag. apply bool_decide_eq_true. }
  split_and!; [done | done | |].
  - intros Hbusy%Hiff. unfold cancelCreateDisabled, createSubmitDisabled.
    by rewrite Hbusy.
  - intros w' Hstep. page_step_cases Hstep.
    assert (createsInFlight w = []) as Hnone.
    { destruct (createsInFlight w); [done|].
      rewrite bool_decide_eq_true_2 in Hflag by done. congruence. }
    rewrite Hnone, Hname in *. done.
Qed.

(** X3. The inline validation feedback of the create form is never filled
    in: since the Create button is disabled while the name is empty,
    [validateForm] always succeeds when [createTask] runs, and
    [validationErrors] is the empty object in every reachable world. *)
Theorem validation_feedback_never_set (w : World) :
  reachable getTime w → validationErrors (ui w) = ∅.
Proof.
  revert w. apply (reachable_ind getTime); [done|].
  intros e w w' Hw Hstep.
  destruct e; page_step_cases Hstep; try done.
  all: rewrite Hw, lookup_empty in *; done.
Qed.

(** *** The confirmation dialog and its selection *)

(** X4. The confirmation dialog is open exactly when a task is selected for
    deletion, and a DELETE request is only ever issued from the open dialog,
    for the task it names. *)
Theorem delete_dialog_selection (w : World) :
  reachable getTime w →
  (showDeleteModal (ui w) = true ↔ is_Some (taskToDelete (ui w)))
  ∧ (∀ w', step getTime ClickConfirmDelete w = Some w' →
       showDeleteModal (ui w) = true
       ∧ ∃ task0, taskToDelete (ui w) = Some task0
                  ∧ deletesInFlight w' = deletesInFlight w ++ [task0]).
Proof.
  intros Hreach.
  assert (showDeleteModal (ui w) = true ↔ is_Some (taskToDelete (ui w))) as Hopen.
  { revert w Hreach. apply (reachable_ind getTime).
    - simpl. split; [done | by intros [? ?]].
    - intros e w w' Hw Hstep.
      destruct e; page_step_cases Hstep; try done.
      all: try (split; [done | by intros [? ?]]).
      all: split; by eauto. }
  split; [done|].
  intros w' Hstep. page_step_cases Hstep.
  split; [apply Hopen; by eauto | by eauto].
Qed.

End PageInvariants.

(** ** Errors that arrive while a dialog is closed *)

Section ClosedDialogs.
Variable getTime : jsstring → option Z.

(** X5. No event taken while a dialog is closed leaves that dialog's alert
    visible.  Dismissing a dialog does not stop its request; a failure that
    arrives while the dialog is closed is stored unseen, and the event that
    opens the dialog clears it. *)
Theorem closed_dialog_shows_no_error (e : Event) (w w' : World) :
  step getTime e w = Some w' →
  (showDeleteModal (ui w) = false → deleteAlertVisible (ui w') = false)
  ∧ (showCreateModal (ui w) = false → createAlertVisible (ui w') = false).
Proof.
  intros Hstep. unfold deleteAlertVisible, createAlertVisible,
    deleteErrorShown, createErrorShown.
  destruct e; page_step_cases Hstep;
    split; intros Hclosed; rewrite ?Hclosed; try done;
    by rewrite ?andb_false_r.
Qed.

End ClosedDialogs.

(** ** More on deletion *)

Section DeleteMore.
Variable getTime : jsstring → option Z.

(** X6. When the DELETE request succeeds, the local collection is the
    collection before the click without the tasks that carry the deleted id,
    the others in their old order; the id is back out of the "deleting" set.
    The continuation closes the confirmation dialog and clears its selection
    whatever the dialog shows at that moment, and leaves the collection as it
    finds it. *)
Theorem deleteTask_success (st0 st1 : State) (task0 : ExampleTask.t) :
  deleteTask_begin st0 = (st1, Some task0) →
  let taskId := ExampleTask.id task0 in
  let st2 := deleteTask_resume getTime task0 (Resolved ()) st1 in
  tasks st2 = filter (λ task, ExampleTask.id task ≠ taskId) (tasks st0)
  ∧ tasks st2 `sublist_of` tasks st0
  ∧ (∀ task, task ∈ tasks st2 ↔ task ∈ tasks st0 ∧ ExampleTask.id task ≠ taskId)
  ∧ deletingTasks st2 = deletingTasks st0 ∖ {[taskId]}
  ∧ ∀ st : State,
      let st' := deleteTask_resume getTime task0 (Resolved ()) st in
      tasks st' = tasks st
      ∧ showDeleteModal st' = false
      ∧ taskToDelete st' = None
      ∧ deleteError st' = None.
Proof.
  intros Hbegin taskId st2.
  pose proof (deleteTask_begin_issued _ _ _ Hbegin) as Hsel.
  rewrite (deleteTask_begin_selected _ _ Hsel) in Hbegin.
  injection Hbegin as <-. subst st2. simpl. split_and!; try done.
  - apply sublist_filter.
  - intros task. rewrite list_elem_of_filter. tauto.
  - apply set_eq. intros x.
    rewrite !elem_of_difference, elem_of_union, !elem_of_singleton.
    unfold taskId. tauto.
Qed.

(** X7. A failed delete puts the task back where it was, provided the
    collection was in creation order, no other task carries its id, and no
    task listed after it was created at the same instant.  In general the
    task comes back behind the later-listed tasks that share its creation
    time, and every other task keeps its place. *)
Theorem deleteTask_rollback_position (st0 st1 : State) (task0 : ExampleTask.t)
    (l1 l2 : list ExampleTask.t) (err : Thrown) :
  deleteTask_begin st0 = (st1, Some task0) →
  tasks st0 = l1 ++ task0 :: l2 →
  StronglySorted (createdAtLe getTime) (tasks st0) →
  ExampleTask.id task0 ∉ ExampleTask.id <$> (l1 ++ l2) →
  isNotFound err = false →
  let st2 := deleteTask_resume getTime task0 (Rejected err) st1 in
  tasks st1 = l1 ++ l2
  ∧ tasks st2 = l1 ++ filter (λ task, createdAtLe getTime task task0) l2
                   ++ task0 :: filter (λ task, createdAtLt getTime task0 task) l2
  ∧ (Forall (λ task, createdAtLt getTime task0 task) l2 → tasks st2 = tasks st0).
Proof.
  intros Hbegin Htasks Hsorted Hfresh Hother st2.
  pose proof (deleteTask_begin_issued _ _ _ Hbegin) as Hsel.
  rewrite (deleteTask_begin_selected _ _ Hsel) in Hbegin.
  injection Hbegin as <-.
  assert (filter (λ task, ExampleTask.id task ≠ ExampleTask.id task0) (tasks st0)
          = l1 ++ l2) as Hremoved.
  { rewrite Htasks, filter_app, filter_cons_False by (by intros []).
    rewrite <- filter_app. apply filter_all.
    apply Forall_forall. intros task Hin Heq. apply Hfresh.
    rewrite <- Heq. by apply list_elem_of_fmap_2. }
  rewrite Htasks in Hsorted.
  apply StronglySorted_app in Hsorted as (Hcross & Hs1 & Hs2).
  apply StronglySorted_cons in Hs2 as [Hafter Hs2].
  assert (StronglySorted (createdAtLe getTime) (l1 ++ l2)) as Hs12.
  { apply StronglySorted_app_2; [|done..].
    intros x1 x2 H1 H2. apply Hcross; [done | by right]. }
  assert (Forall (λ task, createdAtLe getTime task task0) l1) as Hbefore.
  { apply Forall_forall. intros task Hin. apply (Hcross task task0 Hin). by left. }
  assert (tasks st2 = sort (sortCompare (byCreatedAt getTime)) ((l1 ++ l2) ++ [task0]))
    as Hsort.
  { subst st2. rewrite deleteTask_resume_shape, Hother. simpl. by rewrite Hremoved. }
  assert (tasks st2 = l1 ++ filter (λ task, createdAtLe getTime task task0) l2
                         ++ task0 :: filter (λ task, createdAtLt getTime task0 task) l2)
    as Hback.
  { rewrite Hsort. destruct (l1 ++ l2) as [|other rest] eqn:Hrest.
    - apply app_eq_nil in Hrest as [-> ->]. done.
    - rewrite <- Hrest in *.
      assert (Forall (hasCreationTime getTime) (task0 :: l1 ++ l2)) as Hall.
      { rewrite Forall_cons, Forall_app. split_and!.
        - destruct l1 as [|x l1]; [destruct l2 as [|x l2]; [done|]|].
          + apply Forall_cons in Hafter as [Hx _].
            by apply createdAtLe_hasCreationTime in Hx as [? ?].
          + apply Forall_cons in Hbefore as [Hx _].
            by apply createdAtLe_hasCreationTime in Hx as [? ?].
        - eapply Forall_impl; [exact Hbefore|]. simpl. intros x Hx.
          by apply createdAtLe_hasCreationTime in Hx as [? ?].
        - eapply Forall_impl; [exact Hafter|]. simpl. intros x Hx.
          by apply createdAtLe_hasCreationTime in Hx as [? ?]. }
      rewrite (sort_dated_snoc getTime (l1 ++ l2) task0 Hall Hs12).
      rewrite !filter_app, (filter_all _ l1 Hbefore).
      rewrite (filter_none (λ task, createdAtLt getTime task0 task) l1).
      + by rewrite <- app_assoc.
      + eapply Forall_impl; [exact Hbefore|]. simpl. intros task Hle Hlt.
        by apply createdAtLt_not_Le in Hlt. }
  split_and!; [by simpl | done |].
  intros Hlater. rewrite Hback, Htasks.
  rewrite (filter_none (λ task, createdAtLe getTime task task0) l2),
    (filter_all _ l2 Hlater); [done|].
  eapply Forall_impl; [exact Hlater|]. simpl. intros task Hlt.
  by apply createdAtLt_not_Le.
Qed.

End DeleteMore.

(** ** More on the create form *)

Lemma trimStart_padding a s :
  Forall (λ c, isWhiteSpace c = true) a → trimStart (a ++ s) = trimStart s.
Proof. induction 1 as [|c a Hc _ IH]; simpl; [done|]. by rewrite Hc. Qed.

Lemma trimEnd_padding s b :
  Forall (λ c, isWhiteSpace c = true) b → trimEnd (s ++ b) = trimEnd s.
Proof.
  intros Hb. unfold trimEnd. rewrite reverse_app.
  rewrite trimStart_padding; [done|]. by apply Forall_reverse.
Qed.

Lemma trim_padding a n b :
  Forall (λ c, isWhiteSpace c = true) a →
  Forall (λ c, isWhiteSpace c = true) b →
  startsClean n → endsClean n →
  trim (a ++ n ++ b) = n.
Proof.
  intros Ha Hb Hs He. unfold trim. rewrite (trimStart_padding a _ Ha).
  destruct n as [|c n].
  - simpl. rewrite <- (app_nil_r b), trimStart_padding by done. done.
  - simpl in Hs. simpl. rewrite Hs.
    change (c :: n ++ b) with ((c :: n) ++ b).
    rewrite trimEnd_padding by done. by apply trimEnd_fixed.
Qed.

Section FormMore.
Variable getTime : jsstring → option Z.

(** X8. White space typed around a name is lost at once: an input that is a
    clean name with white space before and after it stores just the name.
    In particular, in every reachable world, an input event that appends
    white space to the stored name leaves the form as it is, so a space at
    the end of the name cannot be typed. *)
Theorem typed_padding_is_dropped (a n b : jsstring) (st : State) :
  Forall (λ c, isWhiteSpace c = true) a →
  Forall (λ c, isWhiteSpace c = true) b →
  startsClean n → endsClean n →
  FormData.name (formData (handleInputChange FormData.Name (a ++ n ++ b) st)) = n
  ∧ ∀ w, reachable getTime w →
      formData (handleInputChange FormData.Name
                  (FormData.name (formData (ui w)) ++ b) (ui w))
      = formData (ui w).
Proof.
  intros Ha Hb Hs He. split.
  - rewrite formData_handleInputChange. simpl. by apply trim_padding.
  - intros w Hw. pose proof (reachable_nameTrimmed getTime w Hw) as Hn.
    unfold nameTrimmed in Hn.
    rewrite formData_handleInputChange.
    pose proof (trim_padding [] (FormData.name (formData (ui w))) b) as Hp.
    simpl in Hp. rewrite Hp; [by destruct (formData (ui w))|done..| |].
    + rewrite <- Hn. apply trim_startsClean.
    + rewrite <- Hn. apply trim_endsClean.
Qed.

End FormMore.

(** X9. An input event hides the create error, changes only the field it is
    for, and touches neither the collection nor the dialogs; of two inputs
    into the same field only the second one counts. *)
Theorem input_overwrites_and_clears (field : FormData.key) (v1 v2 : jsstring)
    (st : State) :
  let st' := handleInputChange field v2 st in
  createErrorShown st' = false
  ∧ (∀ other, other ≠ field →
       FormData.get other (formData st') = FormData.get other (formData st))
  ∧ tasks st' = tasks st
  ∧ showCreateModal st' = showCreateModal st
  ∧ isCreating st' = isCreating st
  ∧ handleInputChange field v2 (handleInputChange field v1 st) = st'.
Proof.
  unfold handleInputChange, createErrorShown.
  destruct (truthy_opt (createError st)) eqn:Hc,
    (truthy_opt (validationErrors st !! FormData.key_string field)) eqn:Hv;
    cbn [createError validationErrors formData tasks showCreateModal isCreating
         setFormData setCreateError setValidationErrors];
    rewrite ?lookup_insert_eq, ?Hc, ?Hv;
    cbn [truthy_opt truthy createError validationErrors formData
         setFormData setCreateError setValidationErrors];
    rewrite ?insert_insert_eq;
    (split_and!; [done | by intros [] ?; destruct field | done..
                 | by destruct field, (formData st)]).
Qed.

(** ** More on the boards *)

Lemma filter_filter_comm {A} (P Q : A → Prop)
    `{!∀ x, Decision (P x)} `{!∀ x, Decision (Q x)} (l : list A) :
  filter P (filter Q l) = filter Q (filter P l).
Proof.
  induction l as [|x l IH]; [done|].
  rewrite !filter_cons.
  destruct (decide (Q x)), (decide (P x));
    rewrite ?filter_cons_True, ?filter_cons_False by done; by rewrite ?IH.
Qed.

Lemma tasksWithStatus_valid s l :
  s ∈ TaskStatus.values →
  tasksWithStatus s (filter (λ task, ExampleTask.status task ∈ TaskStatus.values) l)
  = tasksWithStatus s l.
Proof.
  intros Hs. unfold tasksWithStatus. rewrite filter_filter_comm.
  apply filter_all, Forall_forall.
  intros task [-> _]%list_elem_of_filter. exact Hs.
Qed.

(** X10. Without any assumption on the statuses, the three boards together
    hold exactly the tasks whose status is one of the three enumerated
    values: a task with any other status is kept in the collection but is on
    no board. *)
Theorem boards_cover_valid_statuses (st : State) :
  upcomingTasks st ++ inProgressTasks st ++ completedTasks st
    ≡ₚ filter (λ task, ExampleTask.status task ∈ TaskStatus.values) (tasks st)
  ∧ (length (upcomingTasks st) + length (inProgressTasks st)
     + length (completedTasks st) ≤ length (tasks st))%nat
  ∧ ∀ task,
      ExampleTask.status task ∉ TaskStatus.values →
      (task ∉ upcomingTasks st) ∧ (task ∉ inProgressTasks st)
      ∧ (task ∉ completedTasks st).
Proof.
  assert (upcomingTasks st ++ inProgressTasks st ++ completedTasks st
          ≡ₚ filter (λ task, ExampleTask.status task ∈ TaskStatus.values) (tasks st))
    as Hperm.
  { unfold upcomingTasks, inProgressTasks, completedTasks.
    rewrite <- (tasksWithStatus_valid TaskStatus.UPCOMING),
      <- (tasksWithStatus_valid TaskStatus.IN_PROGRESS),
      <- (tasksWithStatus_valid TaskStatus.COMPLETED)
      by (unfold TaskStatus.values; repeat constructor).
    apply boards_Permutation, Forall_forall.
    by intros task [H _]%list_elem_of_filter. }
  split_and!; [done| |].
  - rewrite <- Nat.add_assoc, <- !length_app, Hperm. apply length_filter.
  - intros task Hbad. unfold upcomingTasks, inProgressTasks, completedTasks.
    rewrite !elem_of_tasksWithStatus.
    split_and!; intros [Hs _]; apply Hbad; rewrite Hs;
      unfold TaskStatus.values; repeat constructor.
Qed.

(** X11. Each board lists its tasks in the order of the collection, and
    follows the collection through the mutations: a created task appears
    last on the board of its status and on no other, and confirming a
    deletion takes the tasks with the deleted id off every board and moves
    nothing else. *)
Theorem boards_follow_collection (s : jsstring) (st : State) :
  tasksWithStatus s (tasks st) `sublist_of` tasks st
  ∧ (∀ response,
       tasksWithStatus s (tasks (createTask_resume (Resolved (Some response)) st))
       = tasksWithStatus s (tasks st)
         ++ (if decide (ExampleTask.status response = s) then [response] else []))
  ∧ (∀ task0,
       taskToDelete st = Some task0 →
       tasksWithStatus s (tasks (deleteTask_begin st).1)
       = filter (λ task, ExampleTask.id task ≠ ExampleTask.id task0)
                (tasksWithStatus s (tasks st))).
Proof.
  split_and!.
  - apply sublist_filter.
  - intros response. page_fields. unfold tasksWithStatus.
    rewrite filter_app, filter_cons, filter_nil. by case_decide.
  - intros task0 Hsel. rewrite (deleteTask_begin_selected _ _ Hsel).
    page_fields. unfold tasksWithStatus. apply filter_filter_comm.
Qed.

(** * Properties of the detail page *)

Section DetailPage.
Import Detail.

Lemma detail_reachable_ind (P : World → Prop) :
  (∀ taskId, P (mount taskId)) →
  (∀ e w w', P w → step e w = Some w' → P w') →
  ∀ w, reachable w → P w.
Proof.
  intros Hinit Hstep w (taskId & es & Hrun).
  revert Hrun. generalize (mount taskId) (Hinit taskId).
  induction es as [|e es IH]; intros w0 Hw0 Hrun; simpl in Hrun.
  - by injection Hrun as <-.
  - destruct (step e w0) as [w1|] eqn:He; [|done].
    eapply IH; [|exact Hrun]. eauto.
Qed.

Lemma loadTask_begin_cases taskId st :
  (truthy_opt taskId = false
   ∧ loadTask_begin taskId st
     = (st ▷ setError (Some (lit "Task ID is required")) ▷ setIsLoading false, None))
  ∨ (∃ id, taskId = Some id ∧ id ≠ []
     ∧ loadTask_begin taskId st
       = (st ▷ setIsLoading true ▷ setError None, Some id)).
Proof.
  unfold loadTask_begin. destruct taskId as [[|c id]|]; simpl; eauto.
Qed.

(** X12. On the detail page an error and the spinner never coexist, and the
    spinner is only shown while a request is in flight; so at most one of
    the spinner, the error alert and the task card is on screen. *)
Theorem detail_shows_one_thing (w : World) :
  reachable w →
  (error (view w) ≠ None → isLoading (view w) = false)
  ∧ (isLoading (view w) = true → loadsInFlight w ≠ [])
  ∧ spinnerShown (view w) && alertShown (view w) = false
  ∧ spinnerShown (view w) && cardShown (view w) = false
  ∧ alertShown (view w) && cardShown (view w) = false.
Proof.
  intros Hreach.
  assert ((error (view w) ≠ None → isLoading (view w) = false)
          ∧ (isLoading (view w) = true → loadsInFlight w ≠ [])) as [Herr Hspin].
  { revert w Hreach. apply detail_reachable_ind.
    - intros taskId. unfold mount.
      destruct (loadTask_begin_cases taskId initialState)
        as [[_ ->]|(id & -> & _ & ->)]; simpl; split; done.
    - intros e w w' [Herr Hspin] Hstep. destruct e; simpl in Hstep.
      + destruct (decide (newTaskId = taskId w)); [done|].
        destruct (loadTask_begin_cases newTaskId (view w))
          as [[_ Hb]|(id & -> & _ & Hb)]; rewrite Hb in Hstep;
          simplify_eq; simpl; split; try done.
        intros _. by destruct (loadsInFlight w).
      + destruct (loadsInFlight w !! k); [|done]. simplify_eq.
        destruct r as [v|err]; simpl; split; done. }
  unfold spinnerShown, alertShown, cardShown.
  split_and!; [done | done | | |].
  - destruct (isLoading (view w)) eqn:Hl; [|done].
    destruct (error (view w)) eqn:He; [|done]. by discriminate Herr.
  - by destruct (isLoading (view w)).
  - by destruct (truthy_opt (error (view w))), (isLoading (view w)).
Qed.

(** X13. A route without a usable task id (no parameter, or the empty
    string) issues no request: on mount and on every change to such a
    route the page stores the error "Task ID is required", stops the
    spinner and shows the alert instead of the card, while requests already
    in flight stay in flight. *)
Theorem detail_missing_id (newTaskId : option jsstring) :
  truthy_opt newTaskId = false →
  (loadsInFlight (mount newTaskId) = []
   ∧ error (view (mount newTaskId)) = Some (lit "Task ID is required")
   ∧ spinnerShown (view (mount newTaskId)) = false
   ∧ alertShown (view (mount newTaskId)) = true)
  ∧ ∀ w, newTaskId ≠ taskId w →
      ∃ w', step (ParamChanged newTaskId) w = Some w'
            ∧ loadsInFlight w' = loadsInFlight w
            ∧ error (view w') = Some (lit "Task ID is required")
            ∧ task (view w') = task (view w)
            ∧ spinnerShown (view w') = false
            ∧ alertShown (view w') = true
            ∧ cardShown (view w') = false.
Proof.
  intros Hmissing. split.
  - unfold mount.
    destruct (loadTask_begin_cases newTaskId initialState)
      as [[_ ->]|(id & -> & Hne & _)]; [done|]. by destruct id.
  - intros w Hchanged. simpl. rewrite decide_False by done.
    destruct (loadTask_begin_cases newTaskId (view w))
      as [[_ ->]|(id & -> & Hne & _)]; [|by destruct id].
    eexists. split; [reflexivity|]. simpl.
    rewrite app_nil_r. split_and!; done.
Qed.

(** X14. A response is not matched against the current route.  When the
    route changes from one task to another while the first request is still
    in flight and the first response arrives last, the page ends up showing
    the card of the first task under the route of the second. *)
Theorem detail_last_response_wins (a b : jsstring) (ta tb : Task) :
  a ≠ [] → b ≠ [] → a ≠ b →
  ∃ w,
    run [ParamChanged (Some b);
         LoadSettled 1 (Resolved (Some tb));
         LoadSettled 0 (Resolved (Some ta))] (mount (Some a)) = Some w
    ∧ reachable w
    ∧ taskId w = Some b
    ∧ task (view w) = Some ta
    ∧ loadsInFlight w = []
    ∧ cardShown (view w) = true.
Proof.
  intros Ha Hb Hab.
  destruct a as [|ca a]; [done|]. destruct b as [|cb b]; [done|].
  assert (run [ParamChanged (Some (cb :: b));
               LoadSettled 1 (Resolved (Some tb));
               LoadSettled 0 (Resolved (Some ta))] (mount (Some (ca :: a)))
          = Some (mkWorld (Some (cb :: b)) (mkState (Some ta) false None) []))
    as Hrun.
  { unfold mount, loadTask_begin. cbn [truthy_opt truthy negb].
    cbn [run step taskId].
    destruct (decide (Some (cb :: b) = Some (ca :: a))) as [Heq|_];
      [congruence|].
    reflexivity. }
  eexists. split; [exact Hrun|].
  split; [by eexists _, _|]. by split_and!.
Qed.

End DetailPage.

(** ** What leaves the collection alone *)

Section Frame.
Variable getTime : jsstring → option Z.

(** X15. The local collection changes only when a deletion is confirmed or
    a request settles: opening, filling in, submitting, cancelling or
    dismissing a dialog never adds, removes or reorders a task.  The intro
    alert changes only by being dismissed and, once dismissed, never comes
    back. *)
Theorem collection_changes_only_on_requests (e : Event) (w w' : World) :
  step getTime e w = Some w' →
  (e ≠ ClickConfirmDelete →
   (∀ r, e ≠ LoadSettled r) →
   (∀ k r, e ≠ CreateSettled k r) →
   (∀ k r, e ≠ DeleteSettled k r) →
   tasks (ui w') = tasks (ui w))
  ∧ (e ≠ DismissIntro → showIntroAlert (ui w') = showIntroAlert (ui w))
  ∧ (showIntroAlert (ui w) = false → showIntroAlert (ui w') = false).
Proof.
  intros Hstep. split_and!.
  - intros Hconfirm Hload Hcreate Hdelete.
    destruct e; try done;
      try (by exfalso; eapply Hload); try (by exfalso; eapply Hcreate);
      try (by exfalso; eapply Hdelete);
      page_step_cases Hstep; done.
  - intros Hdismiss. destruct e; try done; page_step_cases Hstep; done.
  - intros Hgone. destruct e; page_step_cases Hstep; done.
Qed.

End Frame.

(** * More worked examples *)

Section MoreWorked.
Import Sample MoreSamples.

Lemma deletingWorld_reachable : reachable getTime deletingWorld.
Proof. exists deleting. vm_compute. reflexivity. Qed.

Lemma creatingWorld_reachable : reachable getTime creatingWorld.
Proof. exists creating. vm_compute. reflexivity. Qed.

(** Once the three tasks are loaded the spinner is off for good. *)
Lemma load_spinner_and_error_sample :
  reachable getTime deletingWorld
  ∧ loadInFlight deletingWorld = false
  ∧ isLoading (ui deletingWorld) = false
  ∧ error (ui deletingWorld) = None.
Proof.
  pose proof deletingWorld_reachable as Hreach.
  destruct (load_spinner_and_error getTime deletingWorld Hreach) as (Hspin & _ & _).
  assert (loadInFlight deletingWorld = false) as Hdone by (vm_compute; reflexivity).
  split; [exact Hreach|]. split; [exact Hdone|].
  split; [by rewrite Hspin|]. vm_compute. reflexivity.
Defined.

(** While the request for "Write docs" is in flight both buttons of the
    create dialog are disabled. *)
Lemma one_create_in_flight_sample :
  reachable getTime creatingWorld
  ∧ createsInFlight creatingWorld = [typedPayload]
  ∧ isCreating (ui creatingWorld) = true
  ∧ cancelCreateDisabled (ui creatingWorld) = true
  ∧ createSubmitDisabled (ui creatingWorld) = true.
Proof.
  pose proof creatingWorld_reachable as Hreach.
  destruct (one_create_in_flight getTime creatingWorld Hreach)
    as (_ & Hflag & Hbusy & _).
  assert (createsInFlight creatingWorld = [typedPayload]) as Hone
    by (vm_compute; reflexivity).
  assert (createsInFlight creatingWorld ≠ []) as Hne by (by rewrite Hone).
  split; [exact Hreach|]. split; [exact Hone|].
  split; [by apply Hflag|]. by apply Hbusy.
Defined.

Lemma validation_feedback_never_set_sample :
  reachable getTime creatingWorld ∧ validationErrors (ui creatingWorld) = ∅.
Proof.
  pose proof creatingWorld_reachable as Hreach.
  split; [exact Hreach|].
  exact (validation_feedback_never_set getTime creatingWorld Hreach).
Defined.

(** With the second task's deletion confirmed the dialog is still open and
    names that task. *)
Lemma delete_dialog_selection_sample :
  reachable getTime deletingWorld
  ∧ taskToDelete (ui deletingWorld) = Some reviewTask
  ∧ showDeleteModal (ui deletingWorld) = true.
Proof.
  pose proof deletingWorld_reachable as Hreach.
  destruct (delete_dialog_selection getTime deletingWorld Hreach) as [Hopen _].
  assert (taskToDelete (ui deletingWorld) = Some reviewTask) as Hsel
    by (vm_compute; reflexivity).
  split; [exact Hreach|]. split; [exact Hsel|].
  apply Hopen. rewrite Hsel. by eexists.
Defined.

(** The dialog is dismissed during the request and the request fails with a
    500: the task is back, the error is stored, and nothing shows it. *)
Lemma closed_dialog_shows_no_error_sample :
  let w' := default dismissedWorld
              (step getTime (DeleteSettled 0 (Rejected serverError)) dismissedWorld) in
  step getTime (DeleteSettled 0 (Rejected serverError)) dismissedWorld = Some w'
  ∧ showDeleteModal (ui dismissedWorld) = false
  ∧ tasks (ui w') = [specTask; reviewTask; shipTask]
  ∧ deleteError (ui w')
    = Some (lit "Server error occurred. Please try again later.")
  ∧ deleteAlertVisible (ui w') = false.
Proof.
  intros w'.
  assert (step getTime (DeleteSettled 0 (Rejected serverError)) dismissedWorld
          = Some w') as Hstep by (vm_compute; reflexivity).
  assert (showDeleteModal (ui dismissedWorld) = false) as Hclosed
    by (vm_compute; reflexivity).
  destruct (closed_dialog_shows_no_error getTime _ _ _ Hstep) as [Hhidden _].
  split; [exact Hstep|]. split; [exact Hclosed|].
  split; [vm_compute; reflexivity|]. split; [vm_compute; reflexivity|].
  by apply Hhidden.
Defined.

(** The second task is deleted and the server confirms. *)
Lemma deleteTask_success_sample :
  let st1 := (deleteTask_begin selected).1 in
  let st2 := deleteTask_resume getTime reviewTask (Resolved ()) st1 in
  deleteTask_begin selected = (st1, Some reviewTask)
  ∧ tasks st2 = [specTask; shipTask]
  ∧ showDeleteModal st2 = false.
Proof.
  intros st1 st2.
  assert (deleteTask_begin selected = (st1, Some reviewTask)) as Hbegin
    by (vm_compute; reflexivity).
  destruct (deleteTask_success getTime selected st1 reviewTask Hbegin)
    as (Htasks & _ & _ & _ & Hany).
  split; [exact Hbegin|].
  split; [subst st2; rewrite Htasks; vm_compute; reflexivity|].
  apply (Hany st1).
Defined.

(** With a twin created at the same instant listed right after it, the
    second task comes back behind the twin. *)
Lemma deleteTask_rollback_position_sample :
  let st0 := selected ▷ setTasks (const [specTask; reviewTask; twinTask; shipTask]) in
  let st1 := (deleteTask_begin st0).1 in
  let st2 := deleteTask_resume getTime reviewTask (Rejected serverError) st1 in
  deleteTask_begin st0 = (st1, Some reviewTask)
  ∧ tasks st0 = [specTask] ++ reviewTask :: [twinTask; shipTask]
  ∧ StronglySorted (createdAtLe getTime) (tasks st0)
  ∧ (ExampleTask.id reviewTask
       ∉ ExampleTask.id <$> ([specTask] ++ [twinTask; shipTask]))
  ∧ isNotFound serverError = false
  ∧ tasks st2 = [specTask; twinTask; reviewTask; shipTask].
Proof.
  intros st0 st1 st2.
  assert (deleteTask_begin st0 = (st1, Some reviewTask)) as Hbegin
    by (vm_compute; reflexivity).
  assert (tasks st0 = [specTask] ++ reviewTask :: [twinTask; shipTask]) as Htasks
    by reflexivity.
  assert (StronglySorted (createdAtLe getTime) (tasks st0)) as Hsorted.
  { repeat constructor; vm_compute; discriminate. }
  assert (ExampleTask.id reviewTask
            ∉ ExampleTask.id <$> ([specTask] ++ [twinTask; shipTask])) as Hfresh.
  { rewrite list_elem_of_In. vm_compute. intros [H|[H|[H|[]]]]; discriminate H. }
  assert (isNotFound serverError = false) as Hother by (vm_compute; reflexivity).
  destruct (deleteTask_rollback_position getTime st0 st1 reviewTask
              [specTask] [twinTask; shipTask] serverError
              Hbegin Htasks Hsorted Hfresh Hother) as (_ & Hback & _).
  split; [exact Hbegin|]. split; [exact Htasks|]. split; [exact Hsorted|].
  split; [exact Hfresh|]. split; [exact Hother|].
  subst st2. rewrite Hback. vm_compute. reflexivity.
Defined.

(** " Write docs  " is stored as "Write docs". *)
Lemma typed_padding_is_dropped_sample :
  Forall (λ c, isWhiteSpace c = true) (lit " ")
  ∧ Forall (λ c, isWhiteSpace c = true) (lit "  ")
  ∧ startsClean (lit "Write docs")
  ∧ endsClean (lit "Write docs")
  ∧ FormData.name (formData (handleInputChange FormData.Name
                               (lit " " ++ lit "Write docs" ++ lit "  ") loaded))
    = lit "Write docs".
Proof.
  assert (Forall (λ c, isWhiteSpace c = true) (lit " ")) as Ha
    by (repeat constructor).
  assert (Forall (λ c, isWhiteSpace c = true) (lit "  ")) as Hb
    by (repeat constructor).
  assert (startsClean (lit "Write docs")) as Hs by (vm_compute; reflexivity).
  assert (endsClean (lit "Write docs")) as He by (vm_compute; reflexivity).
  split; [exact Ha|]. split; [exact Hb|]. split; [exact Hs|]. split; [exact He|].
  apply (typed_padding_is_dropped getTime _ _ _ loaded Ha Hb Hs He).
Defined.

(** Opening the confirmation dialog for the second task leaves the three
    tasks where they are. *)
Lemma collection_changes_only_on_requests_sample :
  let w := default initialWorld
             (run getTime [LoadSettled (Resolved (Some [specTask; reviewTask; shipTask]))]
                  initialWorld) in
  let w' := default w (step getTime (ClickRowDelete reviewTask) w) in
  step getTime (ClickRowDelete reviewTask) w = Some w'
  ∧ showDeleteModal (ui w') = true
  ∧ tasks (ui w') = tasks (ui w).
Proof.
  intros w w'.
  assert (step getTime (ClickRowDelete reviewTask) w = Some w') as Hstep
    by (vm_compute; reflexivity).
  destruct (collection_changes_only_on_requests getTime _ _ _ Hstep)
    as (Hsame & _ & _).
  split; [exact Hstep|]. split; [vm_compute; reflexivity|].
  by apply Hsame.
Defined.

Section DetailWorked.
Import Detail.

(** The page mounted for the first task shows only the spinner. *)
Lemma detail_shows_one_thing_sample :
  reachable (mount (Some (lit "t1")))
  ∧ spinnerShown (view (mount (Some (lit "t1")))) = true
  ∧ alertShown (view (mount (Some (lit "t1")))) = false
  ∧ cardShown (view (mount (Some (lit "t1")))) = false.
Proof.
  assert (reachable (mount (Some (lit "t1")))) as Hreach.
  { exists (Some (lit "t1")), []. reflexivity. }
  destruct (detail_shows_one_thing _ Hreach) as (_ & _ & Halert & Hcard & _).
  assert (spinnerShown (view (mount (Some (lit "t1")))) = true) as Hspin
    by (vm_compute; reflexivity).
  rewrite Hspin in Halert, Hcard.
  split; [exact Hreach|]. split; [exact Hspin|].
  split; [exact Halert | exact Hcard].
Defined.

(** The empty string as task id counts as no id. *)
Lemma detail_missing_id_sample :
  truthy_opt (Some []) = false
  ∧ loadsInFlight (mount (Some [])) = []
  ∧ error (view (mount (Some []))) = Some (lit "Task ID is required").
Proof.
  assert (truthy_opt (Some []) = false) as Hmissing by reflexivity.
  destruct (detail_missing_id (Some []) Hmissing) as [(Hnone & Herr & _) _].
  split; [exact Hmissing|]. split; [exact Hnone | exact Herr].
Defined.

(** Going from the first task to the second while the first response is
    late shows the first task under the second task's route. *)
Lemma detail_last_response_wins_sample :
  lit "t1" ≠ [] ∧ lit "t2" ≠ [] ∧ lit "t1" ≠ lit "t2"
  ∧ ∃ w,
      run [ParamChanged (Some (lit "t2"));
           LoadSettled 1 (Resolved (Some secondDetail));
           LoadSettled 0 (Resolved (Some firstDetail))] (mount (Some (lit "t1")))
      = Some w
      ∧ taskId w = Some (lit "t2")
      ∧ task (view w) = Some firstDetail
      ∧ cardShown (view w) = true.
Proof.
  assert (lit "t1" ≠ []) as Ha by (vm_compute; discriminate).
  assert (lit "t2" ≠ []) as Hb by (vm_compute; discriminate).
  assert (lit "t1" ≠ lit "t2") as Hab by (vm_compute; discriminate).
  destruct (detail_last_response_wins (lit "t1") (lit "t2") firstDetail
              secondDetail Ha Hb Hab)
    as (w & Hrun & _ & Hid & Htask & _ & Hcard).
  split; [exact Ha|]. split; [exact Hb|]. split; [exact Hab|].
  exists w. split; [exact Hrun|]. split; [exact Hid|].
  split; [exact Htask | exact Hcard].
Defined.

End DetailWorked.
End MoreWorked.

(** * Failures that do not end on an open dialog showing an error *)

Section FailureRuns.
Import Sample MoreSamples FailureSamples.



End FailureRuns.
